(** * sagemaker.processing: a shallow embedding

    The module [src/sagemaker/processing.py] builds the request of a
    processing job: it names the input and output descriptors, uploads local
    inputs, derives the entrypoint of a script and hands the request to the
    session.  Descriptors are Python objects mutated in place, so they live in
    a store and lists hold references to them; calls to the session and to the
    uploader are recorded in a trace; exceptions leave the store as it was
    when they were raised. *)

From stdpp Require Import gmap strings list fin_maps pretty.
From Stdlib Require Import ZArith Ascii.

Set Warnings "-register-all".

(** ** Python values that reach the request *)

Inductive pyval :=
| PNone
| PStr (s : string)
| PInt (z : Z)
| PList (l : list pyval)
| PDict (d : gmap string pyval).

Definition py_opt_str (o : option string) : pyval :=
  match o with
  | Some s => PStr s
  | None => PNone
  end.

Definition py_str_list (l : list string) : pyval := PList (PStr <$> l).

(** [d[k1][k2]] for a dictionary of dictionaries. *)
Definition subscript2 (d : gmap string pyval) (k1 k2 : string) : option pyval :=
  match d !! k1 with
  | Some (PDict d') => d' !! k2
  | _ => None
  end.

(** ** Exceptions *)

Inductive exn := ValueError | TypeError | AttributeError.

Inductive res (A : Type) :=
| Return (a : A)
| Raise (e : exn).
Arguments Return {A} a.
Arguments Raise {A} e.

(** ** [os.path] on POSIX: [join] and [basename] *)

Module posixpath.

Definition sep : string := "/".

Definition startswith (s pre : string) : bool := String.prefix pre s.

(** [s.endswith(suf)]: [suf] is [s] or a suffix of its tail. *)
Fixpoint endswith (s suf : string) : bool :=
  String.eqb suf s ||
  match s with
  | EmptyString => false
  | String _ r => endswith r suf
  end.

(** One turn of the loop of [join]: [path] so far, next component [b]. *)
Definition join_step (path b : string) : string :=
  if startswith b sep then b
  else if String.eqb path "" || endswith path sep then path +:+ b
  else path +:+ sep +:+ b.

(** [os.path.join(a, *p)] *)
Definition join (a : string) (p : list string) : string :=
  fold_left join_step p a.

(** [s.rfind(c)], [None] for Python's [-1]. *)
Fixpoint rfind (s : string) (c : Ascii.ascii) : option nat :=
  match s with
  | EmptyString => None
  | String d r =>
      match rfind r c with
      | Some i => Some (S i)
      | None => if Ascii.eqb c d then Some 0 else None
      end
  end.

(** [s[i:]] *)
Fixpoint slice_from (i : nat) (s : string) : string :=
  match i, s with
  | 0, _ => s
  | S _, EmptyString => EmptyString
  | S j, String _ r => slice_from j r
  end.

(** [i = p.rfind(sep) + 1; return p[i:]] *)
Definition basename (p : string) : string :=
  let i := match rfind p "/"%char with Some k => S k | None => 0 end in
  slice_from i p.

(** A path component that is not empty and has no ["/"] at either end. *)
Definition plain (c : string) : Prop :=
  c ≠ "" ∧ startswith c sep = false ∧ endswith c sep = false.

End posixpath.

(** ** The descriptors *)

Module ProcessingInput.

Record t := mk {
  source : string;
  destination : string;
  input_name : option string;
  s3_data_type : string;
  s3_input_mode : string;
  s3_download_mode : string;
  s3_data_distribution_type : string;
  s3_compression_type : option string
}.

(** [__init__] with its defaults; the default compression is the string
    ["None"], not the value [None]. *)
Definition init (source destination : string) (input_name : option string) : t :=
  mk source destination input_name
     "ManifestFile" "File" "Continuous" "FullyReplicated" (Some "None").

Definition s3_input (self : t) : gmap string pyval :=
  <["S3DataDistributionType" := PStr (s3_data_distribution_type self)]>
  (<["S3DownloadMode" := PStr (s3_download_mode self)]>
  (<["S3InputMode" := PStr (s3_input_mode self)]>
  (<["S3DataType" := PStr (s3_data_type self)]>
  (<["LocalPath" := PStr (destination self)]>
  (<["S3Uri" := PStr (source self)]> ∅))))).

Definition to_request_dict (self : t) : res (gmap string pyval) :=
  let s3_input_request_S3Input := s3_input self in
  if bool_decide (s3_compression_type self = Some "Gzip")
     && negb (bool_decide (s3_input_mode self = "Pipe"))
  then Raise ValueError
  else
    let s3_input_request_S3Input :=
      match s3_compression_type self with
      | Some c => <["S3CompressionType" := PStr c]> s3_input_request_S3Input
      | None => s3_input_request_S3Input
      end in
    Return (<["InputName" := py_opt_str (input_name self)]>
            (<["S3Input" := PDict s3_input_request_S3Input]> ∅)).

(** The combination [to_request_dict] refuses. *)
Definition gzip_without_pipe (self : t) : Prop :=
  s3_compression_type self = Some "Gzip" ∧ s3_input_mode self ≠ "Pipe".

Definition set_input_name (n : option string) (self : t) : t :=
  mk (source self) (destination self) n (s3_data_type self) (s3_input_mode self)
     (s3_download_mode self) (s3_data_distribution_type self) (s3_compression_type self).

Definition set_source (s : string) (self : t) : t :=
  mk s (destination self) (input_name self) (s3_data_type self) (s3_input_mode self)
     (s3_download_mode self) (s3_data_distribution_type self) (s3_compression_type self).

End ProcessingInput.

Module ProcessingOutput.

Record t := mk {
  source : string;
  destination : string;
  output_name : option string;
  kms_key_id : option string;
  s3_upload_mode : string
}.

Definition init (source destination : string) (output_name : option string) : t :=
  mk source destination output_name None "Continuous".

Definition to_request_dict (self : t) : res (gmap string pyval) :=
  let s3_output :=
    <["S3UploadMode" := PStr (s3_upload_mode self)]>
    (<["LocalPath" := PStr (source self)]>
    (<["S3Uri" := PStr (destination self)]> ∅)) in
  let s3_output :=
    match kms_key_id self with
    | Some k => <["KmsKeyId" := PStr k]> s3_output
    | None => s3_output
    end in
  Return (<["OutputName" := py_opt_str (output_name self)]>
          (<["S3Output" := PDict s3_output]> ∅)).

Definition set_output_name (n : option string) (self : t) : t :=
  mk (source self) (destination self) n (kms_key_id self) (s3_upload_mode self).

Definition set_destination (d : string) (self : t) : t :=
  mk (source self) d (output_name self) (kms_key_id self) (s3_upload_mode self).

End ProcessingOutput.

(** ** The world outside the module

    What [urllib], the file system, the session and [S3Uploader] answer.
    They are collaborators of the module, not part of it: every statement
    below holds whatever they answer.  They are taken to answer: a call that
    fails inside a collaborator (the network, the service) is outside this
    development, and so is the clock that [name_from_base] reads. *)

Inductive fkind := File | Dir.

#[global] Instance fkind_eq_dec : EqDecision fkind.
Proof. solve_decision. Defined.

Record Env := {
  (** [urlparse(x).scheme] *)
  urlparse_scheme : string → string;
  (** what a path names on the local disk, if anything *)
  path_kind : string → option fkind;
  (** [sagemaker_session.default_bucket()] *)
  default_bucket : string;
  (** the URI [S3Uploader.upload(local_path, desired_s3_uri, session)] returns *)
  upload_result : string → string → string;
  (** [sagemaker.utils.base_name_from_image] and [name_from_base] *)
  base_name_from_image : string → string;
  name_from_base : string → string
}.

Definition isdir (E : Env) (p : string) : bool :=
  bool_decide (path_kind E p = Some Dir).
Definition isfile (E : Env) (p : string) : bool :=
  bool_decide (path_kind E p = Some File).
Definition is_s3 (E : Env) (uri : string) : bool :=
  bool_decide (urlparse_scheme E uri = "s3").

(** ** The store *)

Abbreviation loc := nat.

(** What a reference in a list of inputs or outputs may point to. *)
Inductive obj :=
| ObjInput (i : ProcessingInput.t)
| ObjOutput (o : ProcessingOutput.t)
| ObjOther (v : pyval).

Record processing_job := {
  job_name : option string;
  job_inputs : list loc;
  job_outputs : list loc
}.

(** The attributes of a [Processor]; the session is the [Env]. *)
Record processor := {
  role : string;
  image_uri : string;
  instance_count : Z;
  instance_type : string;
  entrypoint : option (list string);
  volume_size_in_gb : Z;
  volume_kms_key : option string;
  max_runtime_in_seconds : Z;
  base_job_name : option string;
  env : pyval;
  tags : pyval;
  (** the dictionary [network_config.to_request_dict()] gives, if configured *)
  network_config : option pyval;
  jobs : list processing_job;
  latest_job : option processing_job;
  _current_job_name : option string;
  arguments : option (list string)
}.

Definition with_entrypoint (e : option (list string)) (p : processor) : processor :=
  {| role := role p; image_uri := image_uri p; instance_count := instance_count p;
     instance_type := instance_type p; entrypoint := e;
     volume_size_in_gb := volume_size_in_gb p; volume_kms_key := volume_kms_key p;
     max_runtime_in_seconds := max_runtime_in_seconds p; base_job_name := base_job_name p;
     env := env p; tags := tags p; network_config := network_config p;
     jobs := jobs p; latest_job := latest_job p;
     _current_job_name := _current_job_name p; arguments := arguments p |}.

Definition with_current_job_name (n : option string) (p : processor) : processor :=
  {| role := role p; image_uri := image_uri p; instance_count := instance_count p;
     instance_type := instance_type p; entrypoint := entrypoint p;
     volume_size_in_gb := volume_size_in_gb p; volume_kms_key := volume_kms_key p;
     max_runtime_in_seconds := max_runtime_in_seconds p; base_job_name := base_job_name p;
     env := env p; tags := tags p; network_config := network_config p;
     jobs := jobs p; latest_job := latest_job p;
     _current_job_name := n; arguments := arguments p |}.

Definition with_arguments (a : option (list string)) (p : processor) : processor :=
  {| role := role p; image_uri := image_uri p; instance_count := instance_count p;
     instance_type := instance_type p; entrypoint := entrypoint p;
     volume_size_in_gb := volume_size_in_gb p; volume_kms_key := volume_kms_key p;
     max_runtime_in_seconds := max_runtime_in_seconds p; base_job_name := base_job_name p;
     env := env p; tags := tags p; network_config := network_config p;
     jobs := jobs p; latest_job := latest_job p;
     _current_job_name := _current_job_name p; arguments := a |}.

(** [self.latest_job = j; self.jobs.append(j)] *)
Definition with_latest_job (j : processing_job) (p : processor) : processor :=
  {| role := role p; image_uri := image_uri p; instance_count := instance_count p;
     instance_type := instance_type p; entrypoint := entrypoint p;
     volume_size_in_gb := volume_size_in_gb p; volume_kms_key := volume_kms_key p;
     max_runtime_in_seconds := max_runtime_in_seconds p; base_job_name := base_job_name p;
     env := env p; tags := tags p; network_config := network_config p;
     jobs := jobs p ++ [j]; latest_job := Some j;
     _current_job_name := _current_job_name p; arguments := arguments p |}.

(** [Processor.__init__] *)
Definition new_processor (role image_uri : string) (instance_count : Z)
    (instance_type : string) (entrypoint : option (list string)) : processor :=
  {| role := role; image_uri := image_uri; instance_count := instance_count;
     instance_type := instance_type; entrypoint := entrypoint;
     volume_size_in_gb := 30; volume_kms_key := None;
     max_runtime_in_seconds := 24 * 60 * 60; base_job_name := None;
     env := PNone; tags := PNone; network_config := None;
     jobs := []; latest_job := None;
     _current_job_name := None; arguments := None |}.

(** Calls that leave the process. *)
Inductive event :=
| EvUpload (local_path desired_s3_uri : string)
| EvProcess (request : gmap string pyval)
| EvLogsForProcessingJob (name : option string)
| EvWaitForProcessingJob (name : option string).

Record State := {
  self : processor;
  heap : gmap loc obj;
  trace : list event
}.

(** ** Computations: state that survives an exception *)

Definition M (A : Type) : Type := State → res A * State.

#[global] Instance M_ret : MRet M := λ A a st, (Return a, st).
#[global] Instance M_bind : MBind M := λ A B f m st,
  match m st with
  | (Return a, st') => f a st'
  | (Raise e, st') => (Raise e, st')
  end.

Definition raise {A} (e : exn) : M A := λ st, (Raise e, st).
Definition get_self : M processor := λ st, (Return (self st), st).
Definition modify_self (f : processor → processor) : M unit :=
  λ st, (Return tt, {| self := f (self st); heap := heap st; trace := trace st |}).
Definition getobj (l : loc) : M (option obj) := λ st, (Return (heap st !! l), st).
Definition setobj (l : loc) (o : obj) : M unit :=
  λ st, (Return tt, {| self := self st; heap := <[l := o]> (heap st); trace := trace st |}).
Definition newobj (o : obj) : M loc :=
  λ st, let l := fresh (dom (heap st)) in
        (Return l, {| self := self st; heap := <[l := o]> (heap st); trace := trace st |}).
Definition emit (ev : event) : M unit :=
  λ st, (Return tt, {| self := self st; heap := heap st; trace := trace st ++ [ev] |}).

(** A [None] where [os.path.join] wants a string is a [TypeError]. *)
Definition str_or_TypeError (o : option string) : M string :=
  match o with
  | Some s => mret s
  | None => raise TypeError
  end.

Fixpoint mapM_ {A B} (f : A → M B) (l : list A) : M (list B) :=
  match l with
  | [] => mret []
  | a :: l' => b ← f a; bs ← mapM_ f l'; mret (b :: bs)
  end.

(** ** [ProcessingJob] *)

Module ProcessingJob.

(** [input.to_request_dict()] on whatever the reference points to. *)
Definition input_request (l : loc) : M pyval :=
  o ← getobj l;
  match o with
  | Some (ObjInput i) =>
      match ProcessingInput.to_request_dict i with
      | Return d => mret (PDict d)
      | Raise e => raise e
      end
  | Some (ObjOutput o) =>
      match ProcessingOutput.to_request_dict o with
      | Return d => mret (PDict d)
      | Raise e => raise e
      end
  | _ => raise AttributeError
  end.

Definition app_specification (p : processor) : gmap string pyval :=
  let spec : gmap string pyval := {[ "ImageUri" := PStr (image_uri p) ]} in
  let spec :=
    match arguments p with
    | Some a => <["ContainerArguments" := py_str_list a]> spec
    | None => spec
    end in
  match entrypoint p with
  | Some e => <["ContainerEntrypoint" := py_str_list e]> spec
  | None => spec
  end.

Definition process_request_args (p : processor) (ins outs : list pyval)
    : gmap string pyval :=
  <["tags" := tags p]>
  (<["role_arn" := PStr (role p)]>
  (<["network_config" := default PNone (network_config p)]>
  (<["environment" := env p]>
  (<["app_specification" := PDict (app_specification p)]>
  (<["stopping_condition" :=
       PDict {[ "MaxRuntimeInSeconds" := PInt (max_runtime_in_seconds p) ]}]>
  (<["resources" :=
       PDict {[ "ClusterConfig" :=
         PDict (<["VolumeSizeInGB" := PInt (volume_size_in_gb p)]>
               (<["InstanceCount" := PInt (instance_count p)]>
               {[ "InstanceType" := PStr (instance_type p) ]})) ]}]>
  (<["job_name" := py_opt_str (_current_job_name p)]>
  (<["outputs" := PList outs]>
  {[ "inputs" := PList ins ]})))))))).

(** [ProcessingJob.start_new(processor, inputs, outputs)]; the three
    [print] calls are left out. *)
Definition start_new (inputs outputs : list loc) : M processing_job :=
  ins ← mapM_ input_request inputs;
  outs ← mapM_ input_request outputs;
  p ← get_self;
  emit (EvProcess (process_request_args p ins outs));;
  mret {| job_name := _current_job_name p;
          job_inputs := inputs; job_outputs := outputs |}.

Definition wait (j : processing_job) (logs : bool) : M unit :=
  if logs then emit (EvLogsForProcessingJob (job_name j))
  else emit (EvWaitForProcessingJob (job_name j)).

End ProcessingJob.

(** ** [Processor] *)

Module Processor.
Section Methods.
Variable E : Env.

Definition _generate_current_job_name (job_name : option string) : M string :=
  match job_name with
  | Some n => mret n
  | None =>
      p ← get_self;
      let base_name :=
        match base_job_name p with
        | Some b => if String.eqb b "" then base_name_from_image E (image_uri p) else b
        | None => base_name_from_image E (image_uri p)
        end in
      mret (name_from_base E base_name)
  end.

(** One turn of the loop of [_normalize_inputs]; [count] comes from
    [enumerate(inputs, 1)]. *)
Definition normalize_input (count : nat) (file_input : loc) : M unit :=
  o ← getobj file_input;
  match o with
  | Some (ObjInput i) =>
      i ← match ProcessingInput.input_name i with
          | None =>
              let i' := ProcessingInput.set_input_name
                          (Some ("input-" +:+ pretty count)) i in
              setobj file_input (ObjInput i');; mret i'
          | Some _ => mret i
          end;
      if negb (is_s3 E (ProcessingInput.source i)) then
        p ← get_self;
        job ← str_or_TypeError (_current_job_name p);
        name ← str_or_TypeError (ProcessingInput.input_name i);
        let desired_s3_uri :=
          posixpath.join "s3://" [default_bucket E; job; "input"; name] in
        emit (EvUpload (ProcessingInput.source i) desired_s3_uri);;
        let s3_uri := upload_result E (ProcessingInput.source i) desired_s3_uri in
        setobj file_input (ObjInput (ProcessingInput.set_source s3_uri i))
      else mret tt
  | _ => raise TypeError
  end.

Fixpoint normalize_inputs_loop (count : nat) (inputs normalized_inputs : list loc)
    : M (list loc) :=
  match inputs with
  | [] => mret normalized_inputs
  | file_input :: rest =>
      normalize_input count file_input;;
      normalize_inputs_loop (S count) rest (normalized_inputs ++ [file_input])
  end.

Definition _normalize_inputs (inputs : option (list loc)) : M (list loc) :=
  match inputs with
  | Some l => normalize_inputs_loop 1 l []
  | None => mret []
  end.

(** One turn of the loop of [_normalize_outputs]. *)
Definition normalize_output (count : nat) (output : loc) : M unit :=
  o ← getobj output;
  match o with
  | Some (ObjOutput out) =>
      out ← match ProcessingOutput.output_name out with
            | None =>
                let out' := ProcessingOutput.set_output_name
                              (Some ("output-" +:+ pretty count)) out in
                setobj output (ObjOutput out');; mret out'
            | Some _ => mret out
            end;
      if negb (is_s3 E (ProcessingOutput.destination out)) then
        p ← get_self;
        job ← str_or_TypeError (_current_job_name p);
        let s3_uri := posixpath.join "s3://" [default_bucket E; job; "output"] in
        setobj output (ObjOutput (ProcessingOutput.set_destination s3_uri out))
      else mret tt
  | _ => raise TypeError
  end.

Fixpoint normalize_outputs_loop (count : nat) (outputs normalized_outputs : list loc)
    : M (list loc) :=
  match outputs with
  | [] => mret normalized_outputs
  | output :: rest =>
      normalize_output count output;;
      normalize_outputs_loop (S count) rest (normalized_outputs ++ [output])
  end.

Definition _normalize_outputs (outputs : option (list loc)) : M (list loc) :=
  match outputs with
  | Some l => normalize_outputs_loop 1 l []
  | None => mret []
  end.

Definition run (inputs outputs : option (list loc)) (arguments : option (list string))
    (wait logs : bool) (job_name : option string) : M unit :=
  if logs && negb wait then raise ValueError
  else
    n ← _generate_current_job_name job_name;
    modify_self (with_current_job_name (Some n));;
    normalized_inputs ← _normalize_inputs inputs;
    normalized_outputs ← _normalize_outputs outputs;
    modify_self (with_arguments arguments);;
    j ← ProcessingJob.start_new normalized_inputs normalized_outputs;
    modify_self (with_latest_job j);;
    if wait then ProcessingJob.wait j logs else mret tt.

End Methods.
End Processor.

(** ** [ScriptProcessor] *)

Module ScriptProcessor.

Definition _CODE_CONTAINER_BASE_PATH : string := "/input/".
Definition _CODE_CONTAINER_INPUT_NAME : string := "code".

Section Methods.
Variable E : Env.

Definition _get_customer_script_name (code : string) (script_name : option string)
    : res string :=
  if isdir E code && bool_decide (script_name = None) then Raise ValueError
  else
    match (if is_s3 E code || isdir E code then script_name else None) with
    | Some n => Return n
    | None =>
        if is_s3 E code || isfile E code then Return (posixpath.basename code)
        else Raise ValueError
    end.

Definition _upload_code (code : string) : M string :=
  p ← get_self;
  job ← str_or_TypeError (_current_job_name p);
  let desired_s3_uri :=
    posixpath.join "s3://"
      [default_bucket E; job; "input"; _CODE_CONTAINER_INPUT_NAME] in
  emit (EvUpload code desired_s3_uri);;
  mret (upload_result E code desired_s3_uri).

(** The new [ProcessingInput] is built first; [inputs + [code_file_input]]
    is a [TypeError] when [inputs] is [None]. *)
Definition _convert_code_and_add_to_inputs (inputs : option (list loc)) (s3_uri : string)
    : M (list loc) :=
  code_file_input ←
    newobj (ObjInput (ProcessingInput.init s3_uri
              (posixpath.join _CODE_CONTAINER_BASE_PATH [_CODE_CONTAINER_INPUT_NAME])
              (Some _CODE_CONTAINER_INPUT_NAME)));
  match inputs with
  | Some l => mret (l ++ [code_file_input])
  | None => raise TypeError
  end.

Definition _set_entrypoint (command : list string) (customer_script_name : string)
    : M unit :=
  let customer_script_location :=
    posixpath.join _CODE_CONTAINER_BASE_PATH
      [_CODE_CONTAINER_INPUT_NAME; customer_script_name] in
  modify_self (with_entrypoint (Some (command ++ [customer_script_location]))).

Definition run (command : list string) (code : string) (script_name : option string)
    (inputs outputs : option (list loc)) (arguments : option (list string))
    (wait logs : bool) (job_name : option string) : M unit :=
  n ← Processor._generate_current_job_name E job_name;
  modify_self (with_current_job_name (Some n));;
  customer_script_name ←
    match _get_customer_script_name code script_name with
    | Return s => mret s
    | Raise e => raise e
    end;
  customer_code_s3_uri ← _upload_code code;
  inputs_with_code ← _convert_code_and_add_to_inputs inputs customer_code_s3_uri;
  _set_entrypoint command customer_script_name;;
  Processor.run E (Some inputs_with_code) outputs arguments wait logs job_name.

End Methods.
End ScriptProcessor.

(** ** A sample world, to run the definitions *)

Module Sample.

(** A scheme is what stands before the first [":"], when there is one. *)
Fixpoint scheme_of (s : string) : string :=
  match s with
  | EmptyString => ""
  | String c r =>
      if Ascii.eqb c ":" then ""
      else match posixpath.rfind r ":" with
           | Some _ => String c (scheme_of r)
           | None => ""
           end
  end.

Definition E : Env := {|
  urlparse_scheme := scheme_of;
  path_kind p :=
    if String.eqb p "script.py" then Some File
    else if String.eqb p "data.csv" then Some File
    else if String.eqb p "src" then Some Dir
    else None;
  default_bucket := "bkt";
  upload_result local desired := desired +:+ "/" +:+ posixpath.basename local;
  base_name_from_image img := img;
  name_from_base base := base +:+ "-2019-12-03"
|}.

Definition p0 : processor := new_processor "role" "image" 1 "ml.c4.xlarge" None.

Definition st0 (h : gmap loc obj) : State := {| self := p0; heap := h; trace := [] |}.

Definition named (job : string) (st : State) : State :=
  {| self := with_current_job_name (Some job) (self st);
     heap := heap st; trace := trace st |}.

(** Descriptors as a caller writes them. *)
Definition local_input : ProcessingInput.t :=
  ProcessingInput.init "data.csv" "/opt/ml/processing/input" None.
Definition remote_input : ProcessingInput.t :=
  ProcessingInput.init "s3://bkt/data" "/opt/ml/processing/data" None.
Definition local_output : ProcessingOutput.t :=
  ProcessingOutput.init "/opt/ml/processing/output" "results" (Some "out").

(** A store with them, and with a string that is no descriptor. *)
Definition h1 : gmap loc obj :=
  <[0 := ObjInput local_input]>
  (<[1 := ObjOutput local_output]>
  (<[2 := ObjInput remote_input]>
  (<[3 := ObjOther (PStr "data.csv")]> ∅))).

(** The state [run] is in when it normalizes: the job is named. *)
Definition st1 : State := named "job" (st0 h1).

End Sample.

(** ** Vocabulary of the statements *)

(** [isinstance(x, ProcessingInput)] and [isinstance(x, ProcessingOutput)]
    for the object a reference points to. *)
Definition is_input (h : gmap loc obj) (l : loc) : bool :=
  match h !! l with
  | Some (ObjInput _) => true
  | _ => false
  end.

Definition is_output (h : gmap loc obj) (l : loc) : bool :=
  match h !! l with
  | Some (ObjOutput _) => true
  | _ => false
  end.

(** Every attribute of an input but [input_name] and [source]. *)
Definition same_but_name_and_source (i i' : ProcessingInput.t) : Prop :=
  ProcessingInput.destination i' = ProcessingInput.destination i
  ∧ ProcessingInput.s3_data_type i' = ProcessingInput.s3_data_type i
  ∧ ProcessingInput.s3_input_mode i' = ProcessingInput.s3_input_mode i
  ∧ ProcessingInput.s3_download_mode i' = ProcessingInput.s3_download_mode i
  ∧ ProcessingInput.s3_data_distribution_type i'
    = ProcessingInput.s3_data_distribution_type i
  ∧ ProcessingInput.s3_compression_type i' = ProcessingInput.s3_compression_type i.

(** Every attribute of an output but [output_name] and [destination]. *)
Definition same_but_name_and_destination (o o' : ProcessingOutput.t) : Prop :=
  ProcessingOutput.source o' = ProcessingOutput.source o
  ∧ ProcessingOutput.kms_key_id o' = ProcessingOutput.kms_key_id o
  ∧ ProcessingOutput.s3_upload_mode o' = ProcessingOutput.s3_upload_mode o.

(** What may differ between an object before and after: an input in its
    name and source, an output in its name and destination, nothing else. *)
Definition obj_frame (o o' : option obj) : Prop :=
  match o with
  | Some (ObjInput i) => ∃ i', o' = Some (ObjInput i') ∧ same_but_name_and_source i i'
  | Some (ObjOutput a) =>
      ∃ a', o' = Some (ObjOutput a') ∧ same_but_name_and_destination a a'
  | _ => o' = o
  end.

(** The processor is as it was and every object is within [obj_frame]. *)
Definition state_frame (st st' : State) : Prop :=
  self st' = self st ∧ ∀ l, obj_frame (heap st !! l) (heap st' !! l).

(** Objects outside [ls] are as they were. *)
Definition unchanged_outside (ls : list loc) (st st' : State) : Prop :=
  ∀ l, l ∉ ls → heap st' !! l = heap st !! l.

(** The trace only grows. *)
Definition trace_extends (st st' : State) : Prop :=
  ∃ evs, trace st' = trace st ++ evs.

(** A loop over [enumerate(xs, count)] that appends what it has handled. *)
Fixpoint enumerate_loop (body : nat → loc → M unit) (count : nat) (xs acc : list loc)
    : M (list loc) :=
  match xs with
  | [] => mret acc
  | x :: rest => body count x;; enumerate_loop body (S count) rest (acc ++ [x])
  end.

(** The name a descriptor has once the loop has seen it at [count]. *)
Definition name_at (prefix : string) (count : nat) (n : option string) : string :=
  match n with
  | Some s => s
  | None => prefix +:+ pretty count
  end.

(** [os.path.join("s3://", bucket, job, "input", name)] *)
Definition desired_input_uri (E : Env) (job name : string) : string :=
  posixpath.join "s3://" [default_bucket E; job; "input"; name].

(** [os.path.join("s3://", bucket, job, "output")] *)
Definition default_output_uri (E : Env) (job : string) : string :=
  posixpath.join "s3://" [default_bucket E; job; "output"].

(** The name of the input, or of the output, a reference points to. *)
Definition input_name_of (o : option obj) : option string :=
  match o with
  | Some (ObjInput i) => ProcessingInput.input_name i
  | _ => None
  end.

Definition output_name_of (o : option obj) : option string :=
  match o with
  | Some (ObjOutput a) => ProcessingOutput.output_name a
  | _ => None
  end.

(** [l] stands at index [k] of [xs] and nowhere before. *)
Definition first_at (xs : list loc) (k : nat) (l : loc) : Prop :=
  xs !! k = Some l ∧ ∀ j, j < k → xs !! j ≠ Some l.

(** A computation whose final state is always within [R] of its first. *)
Definition keeps {A} (R : relation State) (m : M A) : Prop :=
  ∀ st, R st (m st).2.

(** [self.entrypoint] is as it was. *)
Definition same_entrypoint (st st' : State) : Prop :=
  entrypoint (self st') = entrypoint (self st).

(** ** Vocabulary of the further statements *)

(** A named input whose source is an s3 URI: normalization has nothing to do
    for it. *)
Definition input_settled (E : Env) (h : gmap loc obj) (l : loc) : bool :=
  match h !! l with
  | Some (ObjInput i) =>
      bool_decide (is_Some (ProcessingInput.input_name i))
      && is_s3 E (ProcessingInput.source i)
  | _ => false
  end.

(** A named output whose destination is an s3 URI. *)
Definition output_settled (E : Env) (h : gmap loc obj) (l : loc) : bool :=
  match h !! l with
  | Some (ObjOutput o) =>
      bool_decide (is_Some (ProcessingOutput.output_name o))
      && is_s3 E (ProcessingOutput.destination o)
  | _ => false
  end.

(** The uploader answers with s3 URIs. *)
Definition uploader_answers_s3 (E : Env) : Prop :=
  ∀ local_path desired_s3_uri,
    is_s3 E (upload_result E local_path desired_s3_uri) = true.

Definition is_upload (ev : event) : bool :=
  match ev with
  | EvUpload _ _ => true
  | _ => false
  end.

Definition is_process (ev : event) : bool :=
  match ev with
  | EvProcess _ => true
  | _ => false
  end.

(** The dictionary [x.to_request_dict()] gives for the descriptor at [l], if
    [l] is a descriptor and the call returns. *)
Definition descriptor_request (h : gmap loc obj) (l : loc) : option pyval :=
  match h !! l with
  | Some (ObjInput i) =>
      match ProcessingInput.to_request_dict i with
      | Return d => Some (PDict d)
      | Raise _ => None
      end
  | Some (ObjOutput o) =>
      match ProcessingOutput.to_request_dict o with
      | Return d => Some (PDict d)
      | Raise _ => None
      end
  | _ => None
  end.

(** An input that [to_request_dict] accepts. *)
Definition input_accepted (h : gmap loc obj) (l : loc) : bool :=
  match h !! l with
  | Some (ObjInput i) =>
      negb (bool_decide (ProcessingInput.s3_compression_type i = Some "Gzip")
            && negb (bool_decide (ProcessingInput.s3_input_mode i = "Pipe")))
  | _ => false
  end.

(** The event [ProcessingJob.wait] leaves, if [run] waits at all. *)
Definition wait_events (wait logs : bool) (name : option string) : list event :=
  if wait then
    if logs then [EvLogsForProcessingJob name] else [EvWaitForProcessingJob name]
  else [].

(** The trace is as it was. *)
Definition same_trace (st st' : State) : Prop := trace st' = trace st.

(** The trace grew by uploads only, each of a path that is not an s3 URI. *)
Definition uploads_of_local (E : Env) (st st' : State) : Prop :=
  ∃ evs, trace st' = trace st ++ evs
       ∧ Forall (λ ev, ∃ p d, ev = EvUpload p d ∧ is_s3 E p = false) evs.


(** Inputs that had a name have it still. *)
Definition names_kept (st st' : State) : Prop :=
  ∀ l n, input_name_of (heap st !! l) = Some n → input_name_of (heap st' !! l) = Some n.

(** ** More of the sample world *)

Module Sample2.

(** The sample world with an uploader that always answers with one s3 URI. *)
Definition E_s3 : Env := {|
  urlparse_scheme := urlparse_scheme Sample.E;
  path_kind := path_kind Sample.E;
  default_bucket := default_bucket Sample.E;
  upload_result _ _ := "s3://bkt/uploaded";
  base_name_from_image := base_name_from_image Sample.E;
  name_from_base := name_from_base Sample.E
|}.

(** An input that [to_request_dict] refuses: Gzip in File mode. *)
Definition gzip_input : ProcessingInput.t :=
  ProcessingInput.mk "s3://bkt/data.gz" "/opt/ml/processing/gz" (Some "gz")
    "S3Prefix" "File" "StartOfJob" "FullyReplicated" (Some "Gzip").

Definition h2 : gmap loc obj :=
  <[0 := ObjInput Sample.local_input]>
  (<[1 := ObjOutput Sample.local_output]>
  (<[2 := ObjInput gzip_input]> ∅)).

Definition st2 : State := Sample.st0 h2.

End Sample2.

(** * Facts *)

(** ** Paths *)

Module posixpath_facts.
Import posixpath.

Lemma app_cons x (a b : string) : String x a +:+ b = String x (a +:+ b).
Proof. reflexivity. Qed.

Lemma app_assoc (a b c : string) : (a +:+ b) +:+ c = a +:+ (b +:+ c).
Proof. induction a as [|x a IH]; [done |]. by rewrite !app_cons, IH. Qed.

Lemma app_eq_empty (a b : string) : a +:+ b = "" → b = "".
Proof. destruct a; [done | discriminate]. Qed.

(** The last character decides [endswith "/"], so a non-empty right part
    decides it for a concatenation. *)
Lemma endswith_cons x (r suf : string) :
  endswith (String x r) suf = String.eqb suf (String x r) || endswith r suf.
Proof. reflexivity. Qed.

Lemma endswith_sep_app (a b : string) :
  b ≠ "" → endswith (a +:+ b) sep = endswith b sep.
Proof.
  intros Hb. induction a as [|x a IH]; [done |].
  rewrite app_cons, endswith_cons, IH.
  destruct (String.eqb_spec sep (String x (a +:+ b))) as [Heq|]; [|done].
  injection Heq as _ Hab. symmetry in Hab. by apply app_eq_empty in Hab.
Qed.

Lemma startswith_sep_cons x (r : string) :
  startswith (String x r) sep = bool_decide (x = "/"%char).
Proof.
  unfold startswith, sep. cbn [String.prefix].
  destruct (ascii_dec "/" x) as [<-|Hne].
  { rewrite bool_decide_eq_true_2 by done. by destruct r. }
  symmetry. apply bool_decide_eq_false. congruence.
Qed.

Lemma startswith_sep_app (a b : string) :
  a ≠ "" → startswith (a +:+ b) sep = startswith a sep.
Proof.
  destruct a as [|x a]; [done |]. intros _.
  by rewrite app_cons, !startswith_sep_cons.
Qed.

Lemma join_step_plain (path b : string) :
  path ≠ "" → endswith path sep = false → startswith b sep = false →
  join_step path b = path +:+ "/" +:+ b.
Proof.
  intros Hne He Hs. unfold join_step. rewrite Hs, He.
  destruct (String.eqb_spec path ""); [done |]. done.
Qed.

Lemma join_step_after_sep (path b : string) :
  endswith path sep = true → startswith b sep = false →
  join_step path b = path +:+ b.
Proof.
  intros He Hs. unfold join_step. rewrite Hs, He. by rewrite orb_true_r.
Qed.

Lemma app_ne_empty_r (a b : string) : b ≠ "" → a +:+ b ≠ "".
Proof. intros Hb Hab. by apply app_eq_empty in Hab. Qed.

Ltac nonempty := repeat apply app_ne_empty_r; first [done | discriminate].

Lemma endswith_plain_tail (a c : string) :
  c ≠ "" → endswith c sep = false → endswith (a +:+ "/" +:+ c) sep = false.
Proof. intros Hc He. by rewrite !endswith_sep_app by nonempty. Qed.

(** [os.path.join("s3://", bucket, job, kind)] *)
Lemma join_s3_prefix (bucket job kind : string) :
  plain bucket → plain job → startswith kind sep = false →
  join "s3://" [bucket; job; kind]
  = "s3://" +:+ bucket +:+ "/" +:+ job +:+ "/" +:+ kind.
Proof.
  intros (Hb0 & Hb1 & Hb2) (Hj0 & Hj1 & Hj2) Hk.
  unfold join. cbn [fold_left].
  rewrite (join_step_after_sep "s3://" bucket) by done.
  rewrite (join_step_plain _ job);
    [| nonempty | by rewrite endswith_sep_app | done].
  rewrite (join_step_plain _ kind);
    [| nonempty | by apply endswith_plain_tail | done].
  by rewrite !app_assoc.
Qed.

(** [os.path.join("s3://", bucket, job, kind, name)] *)
Lemma join_s3_uri (bucket job kind name : string) :
  plain bucket → plain job → plain kind → startswith name sep = false →
  join "s3://" [bucket; job; kind; name]
  = "s3://" +:+ bucket +:+ "/" +:+ job +:+ "/" +:+ kind +:+ "/" +:+ name.
Proof.
  intros Hb Hj (Hk0 & Hk1 & Hk2) Hn.
  change (join "s3://" [bucket; job; kind; name])
    with (join_step (join "s3://" [bucket; job; kind]) name).
  rewrite join_s3_prefix by done.
  rewrite join_step_plain; [| nonempty | | done].
  - by rewrite !app_assoc.
  - by rewrite !endswith_sep_app by nonempty.
Qed.

Lemma rfind_slice (p : string) (c : ascii) :
  rfind (slice_from (match rfind p c with Some k => S k | None => 0 end) p) c = None.
Proof.
  induction p as [|d p IH]; [done |].
  cbn [rfind]. destruct (rfind p c) as [k|] eqn:Hk.
  - exact IH.
  - destruct (Ascii.eqb c d) eqn:Hcd.
    + exact IH.
    + cbn [slice_from rfind]. by rewrite Hk, Hcd.
Qed.

(** A base name holds no separator, so it never restarts a [join]. *)
Lemma basename_no_sep (p : string) : rfind (basename p) "/" = None.
Proof. apply rfind_slice. Qed.

Lemma rfind_None_startswith (s : string) :
  rfind s "/" = None → startswith s sep = false.
Proof.
  destruct s as [|d s]; [done |]. rewrite startswith_sep_cons. cbn [rfind].
  destruct (rfind s "/"); [done |].
  destruct (Ascii.eqb_spec "/" d) as [<-|Hne]; [done |]. intros _.
  apply bool_decide_eq_false. congruence.
Qed.

Lemma basename_not_absolute (p : string) : startswith (basename p) sep = false.
Proof. apply rfind_None_startswith, basename_no_sep. Qed.

Lemma join_code_script (name : string) :
  startswith name sep = false →
  join "/input/" ["code"; name] = "/input/code/" +:+ name.
Proof.
  intros Hn. unfold join. cbn [fold_left].
  rewrite (join_step_after_sep "/input/" "code") by done.
  by rewrite join_step_plain.
Qed.
End posixpath_facts.

(** ** Request dictionaries *)

Section RequestDict.
Import ProcessingInput.

Lemma gzip_guard (i : t) :
  bool_decide (s3_compression_type i = Some "Gzip")
    && negb (bool_decide (s3_input_mode i = "Pipe")) = true
  ↔ gzip_without_pipe i.
Proof.
  unfold gzip_without_pipe.
  rewrite andb_true_iff, negb_true_iff, bool_decide_eq_true, bool_decide_eq_false.
  done.
Qed.

Lemma to_request_dict_raise (i : t) :
  gzip_without_pipe i → to_request_dict i = Raise ValueError.
Proof.
  intros H%gzip_guard. unfold to_request_dict. by rewrite H.
Qed.

Lemma to_request_dict_return (i : t) :
  ¬ gzip_without_pipe i →
  to_request_dict i =
    Return (<["InputName" := py_opt_str (input_name i)]>
            (<["S3Input" := PDict
                 match s3_compression_type i with
                 | Some c => <["S3CompressionType" := PStr c]> (s3_input i)
                 | None => s3_input i
                 end]> ∅)).
Proof.
  intros H. unfold to_request_dict.
  destruct (_ && _) eqn:Hg; [by apply gzip_guard in Hg | done].
Qed.

(** C3: [to_request_dict] raises a [ValueError] exactly when the compression
    type is ["Gzip"] and the input mode is not ["Pipe"]; in every other case
    it returns a request dictionary. *)
Theorem to_request_dict_raises_iff_gzip_without_pipe (i : t) :
  (to_request_dict i = Raise ValueError
     ↔ s3_compression_type i = Some "Gzip" ∧ s3_input_mode i ≠ "Pipe")
  ∧ ((∃ d, to_request_dict i = Return d)
     ↔ ¬ (s3_compression_type i = Some "Gzip" ∧ s3_input_mode i ≠ "Pipe")).
Proof.
  fold (gzip_without_pipe i).
  destruct (decide (gzip_without_pipe i)) as [Hg|Hg].
  - rewrite (to_request_dict_raise i Hg). split; split; try done.
    intros [d Hd]; discriminate.
  - rewrite (to_request_dict_return i Hg). split; split; try done.
    eauto.
Qed.

Lemma s3_input_no_compression (i : t) : s3_input i !! "S3CompressionType" = None.
Proof. unfold s3_input. by repeat (rewrite lookup_insert_ne by done). Qed.

(** C9: a returned request dictionary holds the key [S3CompressionType]
    with the compression string whenever that attribute is a string, the
    default ["None"] included; the key is missing only for the value
    [None].  A dictionary is returned unless the Gzip guard raises. *)
Theorem to_request_dict_compression_key (i : t) :
  ¬ (s3_compression_type i = Some "Gzip" ∧ s3_input_mode i ≠ "Pipe") →
  ∃ d, to_request_dict i = Return d
     ∧ (∀ c, s3_compression_type i = Some c →
             subscript2 d "S3Input" "S3CompressionType" = Some (PStr c))
     ∧ (subscript2 d "S3Input" "S3CompressionType" = None
          ↔ s3_compression_type i = None).
Proof.
  intros Hg. eexists. split; [by apply to_request_dict_return |].
  unfold subscript2.
  rewrite lookup_insert_ne, lookup_insert_eq by done.
  destruct (s3_compression_type i) as [c|].
  - rewrite lookup_insert_eq. split; [by intros ? [= <-] | done].
  - rewrite s3_input_no_compression. split; done.
Qed.

(** The default descriptor: compression is the string ["None"], and the
    request says so. *)
Lemma to_request_dict_compression_key_default :
  ∃ d, to_request_dict (init "s3://bkt/data" "/opt/ml/processing/input" None)
       = Return d
     ∧ (∀ c, Some "None" = Some c →
             subscript2 d "S3Input" "S3CompressionType" = Some (PStr c))
     ∧ (subscript2 d "S3Input" "S3CompressionType" = None
          ↔ Some "None" = @None string).
Proof.
  apply (to_request_dict_compression_key
           (init "s3://bkt/data" "/opt/ml/processing/input" None)).
  simpl. intros [[=] _].
Defined.

End RequestDict.

(** ** Script mode *)

Section ScriptMode.
Import ScriptProcessor.
Variable E : Env.

Lemma isdir_not_isfile (p : string) : isdir E p = true → isfile E p = false.
Proof.
  unfold isdir, isfile. rewrite bool_decide_eq_true, bool_decide_eq_false.
  congruence.
Qed.

Lemma script_name_of_local_file (code : string) (script_name : option string) :
  isfile E code = true → is_s3 E code = false →
  _get_customer_script_name E code script_name = Return (posixpath.basename code).
Proof.
  intros Hf Hs. unfold _get_customer_script_name.
  assert (isdir E code = false) as ->.
  { destruct (isdir E code) eqn:Hd; [| done].
    apply isdir_not_isfile in Hd. congruence. }
  rewrite Hs, Hf. done.
Qed.

(** C5: the cases of [_get_customer_script_name], read in the order of the
    chain of [if]s: a directory without a script name is a [ValueError]; a
    given script name is returned for an s3 URI or a directory; otherwise
    the base name of [code] is returned for an s3 URI or an existing file;
    anything that is no file, no directory and no s3 URI is a
    [ValueError]. *)
Theorem get_customer_script_name_cases (code : string) (script_name : option string) :
  (isdir E code = true → script_name = None →
     _get_customer_script_name E code script_name = Raise ValueError)
  ∧ (∀ n, script_name = Some n → is_s3 E code = true ∨ isdir E code = true →
     _get_customer_script_name E code script_name = Return n)
  ∧ (is_s3 E code = true ∨ isfile E code = true →
     ¬ (isdir E code = true ∧ script_name = None) →
     ¬ (script_name ≠ None ∧ (is_s3 E code = true ∨ isdir E code = true)) →
     _get_customer_script_name E code script_name = Return (posixpath.basename code))
  ∧ (isfile E code = false → isdir E code = false → is_s3 E code = false →
     _get_customer_script_name E code script_name = Raise ValueError).
Proof.
  unfold _get_customer_script_name. repeat split.
  - intros -> ->. done.
  - intros n -> Hor. rewrite andb_false_r.
    by destruct Hor as [-> | ->]; rewrite ?orb_true_r.
  - intros Hor H1 H2.
    destruct (isdir E code) eqn:Hd, script_name as [n|]; cbn [andb bool_decide];
      try (exfalso; by (apply H1 || apply H2; auto)).
    + rewrite orb_true_r in *. exfalso. apply H2. auto.
    + destruct (is_s3 E code) eqn:Hs.
      * exfalso. apply H2. auto.
      * destruct Hor as [? | ->]; done.
    + rewrite orb_false_r. destruct (is_s3 E code) eqn:Hs; [done |].
      destruct Hor as [? | ->]; done.
  - intros -> -> ->. by destruct script_name.
Qed.

(** The four cases, on the sample disk. *)
Example get_customer_script_name_samples :
  _get_customer_script_name Sample.E "src" None = Raise ValueError
  ∧ _get_customer_script_name Sample.E "src" (Some "main.py") = Return "main.py"
  ∧ _get_customer_script_name Sample.E "s3://bkt/code/train.py" (Some "main.py")
    = Return "main.py"
  ∧ _get_customer_script_name Sample.E "s3://bkt/code/train.py" None
    = Return "train.py"
  ∧ _get_customer_script_name Sample.E "script.py" (Some "main.py")
    = Return "script.py"
  ∧ _get_customer_script_name Sample.E "missing.py" (Some "main.py")
    = Raise ValueError.
Proof. repeat split. Qed.

Lemma set_entrypoint_spec (command : list string) (name : string) (st : State) :
  _set_entrypoint command name st
  = (Return tt,
     {| self := with_entrypoint
                  (Some (command ++ [posixpath.join "/input/" ["code"; name]])) (self st);
        heap := heap st; trace := trace st |}).
Proof. reflexivity. Qed.

End ScriptMode.

(** ** Running *)

Section Running.
Variable E : Env.

(** C6: [run(wait=False, logs=True)] raises a [ValueError] and leaves the
    state as it found it: no job name is stored, no descriptor is touched,
    nothing is uploaded and the session is not asked to process. *)
Theorem run_logs_without_wait (inputs outputs : option (list loc))
    (arguments : option (list string)) (job_name : option string) (st : State) :
  Processor.run E inputs outputs arguments false true job_name st
  = (Raise ValueError, st).
Proof. reflexivity. Qed.

Lemma generate_current_job_name_pure (job_name : option string) (st : State) :
  ∃ n, Processor._generate_current_job_name E job_name st = (Return n, st).
Proof. destruct job_name; eexists; reflexivity. Qed.

Lemma convert_code_Some (l : list loc) (s3_uri : string) (st : State) :
  let c := fresh (dom (heap st)) in
  ScriptProcessor._convert_code_and_add_to_inputs (Some l) s3_uri st
  = (Return (l ++ [c]),
     {| self := self st;
        heap := <[c := ObjInput (ProcessingInput.init s3_uri "/input/code" (Some "code"))]>
                  (heap st);
        trace := trace st |}).
Proof. reflexivity. Qed.

Lemma convert_code_None (s3_uri : string) (st : State) :
  (ScriptProcessor._convert_code_and_add_to_inputs None s3_uri st).1 = Raise TypeError.
Proof. reflexivity. Qed.

Lemma script_run_None (command : list string) (code : string)
    (script_name : option string) (outputs : option (list loc))
    (arguments : option (list string)) (wait logs : bool)
    (job_name : option string) (st : State) (name : string) :
  ScriptProcessor._get_customer_script_name E code script_name = Return name →
  ∃ job,
    ScriptProcessor.run E command code script_name None
      outputs arguments wait logs job_name st
    = (Raise TypeError,
       {| self := with_current_job_name (Some job) (self st);
          heap := <[fresh (dom (heap st)) :=
                      ObjInput (ProcessingInput.init
                        (upload_result E code
                           (posixpath.join "s3://"
                              [default_bucket E; job; "input"; "code"]))
                        "/input/code" (Some "code"))]> (heap st);
          trace := trace st ++
            [EvUpload code
               (posixpath.join "s3://" [default_bucket E; job; "input"; "code"])] |}).
Proof.
  intros Hname.
  destruct (generate_current_job_name_pure job_name st) as [n Hn].
  exists n. unfold ScriptProcessor.run.
  unfold mbind at 1. unfold M_bind at 1. rewrite Hn.
  rewrite Hname. reflexivity.
Qed.

(** C8: with [inputs] left out, [ScriptProcessor.run] raises a [TypeError]
    where the code input is appended: the code has been uploaded, the
    entrypoint is not set and nothing is submitted.  Appending succeeds
    exactly when [inputs] is a list, and then gives that list followed by a
    new descriptor of the code. *)
Theorem script_run_without_inputs :
  (∀ command code script_name outputs arguments wait logs job_name st name,
     ScriptProcessor._get_customer_script_name E code script_name = Return name →
     let r := ScriptProcessor.run E command code script_name None
                outputs arguments wait logs job_name st in
     r.1 = Raise TypeError
     ∧ entrypoint (self r.2) = entrypoint (self st)
     ∧ ∃ job, _current_job_name (self r.2) = Some job
            ∧ trace r.2 = trace st ++
                [EvUpload code
                   (posixpath.join "s3://" [default_bucket E; job; "input"; "code"])])
  ∧ (∀ inputs s3_uri st,
       (∃ l st', ScriptProcessor._convert_code_and_add_to_inputs inputs s3_uri st
                 = (Return l, st'))
       ↔ ∃ l, inputs = Some l)
  ∧ (∀ l s3_uri st, ∃ c st',
       ScriptProcessor._convert_code_and_add_to_inputs (Some l) s3_uri st
       = (Return (l ++ [c]), st')
       ∧ heap st !! c = None
       ∧ heap st' !! c
         = Some (ObjInput (ProcessingInput.init s3_uri "/input/code" (Some "code")))).
Proof.
  split; [| split].
  - intros command code script_name outputs arguments wait logs job_name st name Hname.
    destruct (script_run_None command code script_name outputs arguments
                wait logs job_name st name Hname) as [job ->].
    cbn [fst snd self trace]. split; [done | split; [done |]]. by exists job.
  - intros inputs s3_uri st. split.
    + intros (l & st' & H). destruct inputs as [l0|]; [by exists l0 |].
      discriminate.
    + intros [l ->]. rewrite convert_code_Some. eauto.
  - intros l s3_uri st. eexists _, _. split; [apply convert_code_Some |].
    cbn [heap]. split.
    + apply not_elem_of_dom, is_fresh.
    + apply lookup_insert_eq.
Qed.

End Running.

Lemma script_run_without_inputs_sample :
  ScriptProcessor._get_customer_script_name Sample.E "script.py" None = Return "script.py"
  ∧ (ScriptProcessor.run Sample.E ["python3"] "script.py" None None None None
       true true (Some "job") (Sample.st0 ∅)).1 = Raise TypeError.
Proof.
  split; [reflexivity |].
  destruct (script_run_without_inputs Sample.E) as [H _].
  apply (H ["python3"] "script.py" None None None true true (Some "job")
           (Sample.st0 ∅) "script.py").
  reflexivity.
Defined.

(** ** Relations between the state before and after *)

#[global] Instance obj_frame_refl : Reflexive obj_frame.
Proof.
  intros [[i|a|v]|]; cbn; [| |done..].
  - exists i. by repeat split.
  - exists a. by repeat split.
Qed.

#[global] Instance obj_frame_trans : Transitive obj_frame.
Proof.
  intros [[i|a|v]|] o2 o3; cbn.
  - intros (i2 & -> & H12). cbn. intros (i3 & -> & H23). exists i3. split; [done |].
    unfold same_but_name_and_source in *. intuition congruence.
  - intros (a2 & -> & H12). cbn. intros (a3 & -> & H23). exists a3. split; [done |].
    unfold same_but_name_and_destination in *. intuition congruence.
  - intros ->. done.
  - intros ->. done.
Qed.

#[global] Instance state_frame_preorder : PreOrder state_frame.
Proof.
  split.
  - intros st. split; [done |]. intros l. reflexivity.
  - intros st1 st2 st3 [Hs12 Hh12] [Hs23 Hh23]. split; [congruence |].
    intros l. etransitivity; [apply Hh12 | apply Hh23].
Qed.

#[global] Instance unchanged_outside_preorder ls : PreOrder (unchanged_outside ls).
Proof.
  split.
  - by intros st l _.
  - intros st1 st2 st3 H12 H23 l Hl. rewrite H23, H12; done.
Qed.

#[global] Instance trace_extends_preorder : PreOrder trace_extends.
Proof.
  split.
  - intros st. exists []. by rewrite app_nil_r.
  - intros st1 st2 st3 [e1 H1] [e2 H2]. exists (e1 ++ e2).
    by rewrite H2, H1, app_assoc.
  Qed.

Lemma state_frame_is_input (st st' : State) (l : loc) :
  state_frame st st' → is_input (heap st') l = is_input (heap st) l.
Proof.
  intros [_ H]. specialize (H l). unfold is_input.
  destruct (heap st !! l) as [[i|a|v]|]; cbn in H.
  - by destruct H as (i' & -> & _).
  - by destruct H as (a' & -> & _).
  - by rewrite H.
  - by rewrite H.
Qed.

Lemma state_frame_is_output (st st' : State) (l : loc) :
  state_frame st st' → is_output (heap st') l = is_output (heap st) l.
Proof.
  intros [_ H]. specialize (H l). unfold is_output.
  destruct (heap st !! l) as [[i|a|v]|]; cbn in H.
  - by destruct H as (i' & -> & _).
  - by destruct H as (a' & -> & _).
  - by rewrite H.
  - by rewrite H.
Qed.

(** ** The loop over [enumerate] *)

Section EnumerateLoop.
Variable body : nat → loc → M unit.

Lemma enumerate_loop_cons (count : nat) (x : loc) (rest acc : list loc) (st : State) :
  enumerate_loop body count (x :: rest) acc st
  = match body count x st with
    | (Return _, st1) => enumerate_loop body (S count) rest (acc ++ [x]) st1
    | (Raise e, st1) => (Raise e, st1)
    end.
Proof. reflexivity. Qed.

(** A preorder that every turn respects is respected by the loop. *)
Lemma enumerate_loop_keeps (R : relation State) `{!PreOrder R} (xs : list loc) :
  (∀ count x st, x ∈ xs → R st (body count x st).2) →
  ∀ count acc st, R st (enumerate_loop body count xs acc st).2.
Proof.
  induction xs as [|x rest IH]; intros Hbody count acc st.
  - reflexivity.
  - rewrite enumerate_loop_cons.
    pose proof (Hbody count x st ltac:(left)) as Hx.
    destruct (body count x st) as [[[]|e] st1]; cbn in Hx |- *; [| done].
    etransitivity; [exact Hx |].
    apply IH. intros c y s Hy. apply Hbody. by right.
Qed.

(** What the loop returns is what it was given, after [acc]. *)
Lemma enumerate_loop_returns (xs : list loc) (count : nat) (acc : list loc)
    (st : State) (r : list loc) (st' : State) :
  enumerate_loop body count xs acc st = (Return r, st') → r = acc ++ xs.
Proof.
  revert count acc st. induction xs as [|x rest IH]; intros count acc st.
  - intros [= <- _]. by rewrite app_nil_r.
  - rewrite enumerate_loop_cons.
    destruct (body count x st) as [[[]|e] st1]; [| done].
    intros H%IH. by rewrite H, <- app_assoc.
Qed.

(** The loop stops at an element whose turn raises: it ends in the state
    the elements before it lead to, whatever comes after. *)
Lemma enumerate_loop_stops (bad_in : State → loc → Prop) (err : exn)
    (pre : list loc) (bad : loc) (post : list loc) :
  (∀ count st, bad_in st bad → body count bad st = (Raise err, st)) →
  (∀ count x st, bad_in st bad → bad_in (body count x st).2 bad) →
  (∀ count x st e st', body count x st = (Raise e, st') → e = err) →
  ∀ count acc st, bad_in st bad →
    enumerate_loop body count (pre ++ bad :: post) acc st
    = (Raise err, (enumerate_loop body count pre acc st).2).
Proof.
  intros Hbad Hkeep Herr. induction pre as [|x pre IH]; intros count acc st Hst.
  - cbn [app]. rewrite enumerate_loop_cons, Hbad; done.
  - cbn [app]. rewrite !enumerate_loop_cons.
    pose proof (Hkeep count x st Hst) as Hst1.
    destruct (body count x st) as [[[]|e] st1] eqn:Hx; cbn in Hst1 |- *.
    + by apply IH.
    + by rewrite (Herr _ _ _ _ _ Hx).
Qed.

(** The loop returns when every turn does. *)
Lemma enumerate_loop_succeeds (ok : State → Prop) (xs : list loc) :
  (∀ count x st, x ∈ xs → ok st →
     (body count x st).1 = Return tt ∧ ok (body count x st).2) →
  ∀ count acc st, ok st →
    (enumerate_loop body count xs acc st).1 = Return (acc ++ xs).
Proof.
  induction xs as [|x rest IH]; intros Hbody count acc st Hst.
  - cbn. by rewrite app_nil_r.
  - rewrite enumerate_loop_cons.
    destruct (Hbody count x st ltac:(left) Hst) as [Hr Hok].
    destruct (body count x st) as [r st1]; cbn in Hr, Hok. subst r.
    rewrite IH; [by rewrite <- app_assoc | | done].
    intros c y s Hy. apply Hbody. by right.
Qed.

End EnumerateLoop.

(** ** One turn of normalization *)

Lemma state_eta (st : State) :
  {| self := self st; heap := heap st; trace := trace st |} = st.
Proof. by destruct st. Qed.

Lemma set_input_name_id (i : ProcessingInput.t) (n : string) :
  ProcessingInput.input_name i = Some n →
  ProcessingInput.set_input_name (Some n) i = i.
Proof. destruct i; cbn. by intros ->. Qed.

Lemma set_output_name_id (o : ProcessingOutput.t) (n : string) :
  ProcessingOutput.output_name o = Some n →
  ProcessingOutput.set_output_name (Some n) o = o.
Proof. destruct o; cbn. by intros ->. Qed.

Section Turn.
Variable E : Env.

(** What one turn of the loop of [_normalize_inputs] does to the state. *)
Lemma normalize_input_eq (count : nat) (l : loc) (st : State) :
  Processor.normalize_input E count l st =
  match heap st !! l with
  | Some (ObjInput i) =>
      let n := name_at "input-" count (ProcessingInput.input_name i) in
      let i1 := ProcessingInput.set_input_name (Some n) i in
      let st1 := {| self := self st; heap := <[l := ObjInput i1]> (heap st);
                    trace := trace st |} in
      if is_s3 E (ProcessingInput.source i) then (Return tt, st1)
      else match _current_job_name (self st) with
           | None => (Raise TypeError, st1)
           | Some job =>
               let uri := desired_input_uri E job n in
               (Return tt,
                {| self := self st;
                   heap := <[l := ObjInput (ProcessingInput.set_source
                               (upload_result E (ProcessingInput.source i) uri) i1)]>
                             (heap st);
                   trace := trace st ++ [EvUpload (ProcessingInput.source i) uri] |})
           end
  | _ => (Raise TypeError, st)
  end.
Proof.
  unfold Processor.normalize_input.
  unfold mbind at 1. unfold M_bind at 1. unfold getobj at 1.
  destruct (heap st !! l) as [[i|a|v]|] eqn:Hl; [| done..].
  destruct (ProcessingInput.input_name i) as [n|] eqn:Hn.
  - cbn [name_at]. rewrite (set_input_name_id i n Hn).
    rewrite (insert_id (heap st) l (ObjInput i) Hl), state_eta.
    unfold mbind, M_bind, mret, M_ret.
    destruct (is_s3 E (ProcessingInput.source i)); cbn [negb]; [done |].
    unfold get_self, str_or_TypeError, raise, mret, M_ret.
    destruct (_current_job_name (self st)) as [job|]; [| done].
    rewrite Hn. reflexivity.
  - cbn [name_at].
    unfold mbind, M_bind, mret, M_ret, setobj.
    cbn [ProcessingInput.source ProcessingInput.set_input_name].
    destruct (is_s3 E (ProcessingInput.source i)); cbn [negb]; [done |].
    unfold get_self, str_or_TypeError, raise, mret, M_ret. cbn [self].
    destruct (_current_job_name (self st)) as [job|]; [| done].
    cbn [ProcessingInput.input_name ProcessingInput.set_input_name].
    unfold emit, setobj. cbn [self heap trace].
    by rewrite insert_insert_eq.
Qed.

(** What one turn of the loop of [_normalize_outputs] does to the state. *)
Lemma normalize_output_eq (count : nat) (l : loc) (st : State) :
  Processor.normalize_output E count l st =
  match heap st !! l with
  | Some (ObjOutput o) =>
      let n := name_at "output-" count (ProcessingOutput.output_name o) in
      let o1 := ProcessingOutput.set_output_name (Some n) o in
      let st1 := {| self := self st; heap := <[l := ObjOutput o1]> (heap st);
                    trace := trace st |} in
      if is_s3 E (ProcessingOutput.destination o) then (Return tt, st1)
      else match _current_job_name (self st) with
           | None => (Raise TypeError, st1)
           | Some job =>
               (Return tt,
                {| self := self st;
                   heap := <[l := ObjOutput (ProcessingOutput.set_destination
                               (default_output_uri E job) o1)]> (heap st);
                   trace := trace st |})
           end
  | _ => (Raise TypeError, st)
  end.
Proof.
  unfold Processor.normalize_output.
  unfold mbind at 1. unfold M_bind at 1. unfold getobj at 1.
  destruct (heap st !! l) as [[i|o|v]|] eqn:Hl; [done | | done..].
  destruct (ProcessingOutput.output_name o) as [n|] eqn:Hn.
  - cbn [name_at]. rewrite (set_output_name_id o n Hn).
    rewrite (insert_id (heap st) l (ObjOutput o) Hl), state_eta.
    unfold mbind, M_bind, mret, M_ret.
    destruct (is_s3 E (ProcessingOutput.destination o)); cbn [negb]; [done |].
    unfold get_self, str_or_TypeError, raise, mret, M_ret.
    destruct (_current_job_name (self st)) as [job|]; done.
  - cbn [name_at].
    unfold mbind, M_bind, mret, M_ret, setobj.
    cbn [ProcessingOutput.destination ProcessingOutput.set_output_name].
    destruct (is_s3 E (ProcessingOutput.destination o)); cbn [negb]; [done |].
    unfold get_self, str_or_TypeError, raise, mret, M_ret. cbn [self].
    destruct (_current_job_name (self st)) as [job|]; [| done].
    unfold setobj. cbn [self heap trace].
    by rewrite insert_insert_eq.
Qed.

End Turn.

(** ** Frames of one turn and of the loops *)

Section Frames.
Variable E : Env.

Lemma same_but_name_and_source_set (i : ProcessingInput.t) n s :
  same_but_name_and_source i
    (ProcessingInput.set_source s (ProcessingInput.set_input_name n i)).
Proof. by repeat split. Qed.

Lemma same_but_name_and_source_named (i : ProcessingInput.t) n :
  same_but_name_and_source i (ProcessingInput.set_input_name n i).
Proof. by repeat split. Qed.

Lemma same_but_name_and_destination_set (o : ProcessingOutput.t) n d :
  same_but_name_and_destination o
    (ProcessingOutput.set_destination d (ProcessingOutput.set_output_name n o)).
Proof. by repeat split. Qed.

Lemma same_but_name_and_destination_named (o : ProcessingOutput.t) n :
  same_but_name_and_destination o (ProcessingOutput.set_output_name n o).
Proof. by repeat split. Qed.

(** Replacing an object by one within its frame keeps the state within
    its frame. *)
Lemma state_frame_insert (st : State) (l : loc) (o : obj) (tr : list event) :
  obj_frame (heap st !! l) (Some o) →
  state_frame st {| self := self st; heap := <[l := o]> (heap st); trace := tr |}.
Proof.
  intros Ho. split; [done |]. intros l'. cbn [heap].
  destruct (decide (l = l')) as [<-|Hne].
  - by rewrite lookup_insert_eq.
  - rewrite lookup_insert_ne by done. reflexivity.
Qed.

Lemma unchanged_outside_insert (ls : list loc) (st : State) (l : loc) (o : obj)
    (tr : list event) (p : processor) :
  l ∈ ls →
  unchanged_outside ls st {| self := p; heap := <[l := o]> (heap st); trace := tr |}.
Proof.
  intros Hl l' Hl'. cbn [heap]. apply lookup_insert_ne. by intros ->.
Qed.

Lemma trace_extends_app (st : State) (p : processor) (h : gmap loc obj)
    (evs : list event) :
  trace_extends st {| self := p; heap := h; trace := trace st ++ evs |}.
Proof. by exists evs. Qed.

Lemma trace_extends_same (st : State) (p : processor) (h : gmap loc obj) :
  trace_extends st {| self := p; heap := h; trace := trace st |}.
Proof. exists []. cbn. by rewrite app_nil_r. Qed.

Ltac input_cases l st :=
  rewrite normalize_input_eq;
  destruct (heap st !! l) as [[?i|?a|?v]|] eqn:?Hl; cbn zeta;
  [ destruct (is_s3 E (ProcessingInput.source i)) eqn:?Hs3;
    [| destruct (_current_job_name (self st)) as [?job|] eqn:?Hjob ] | ..];
  cbn [fst snd].

Ltac output_cases l st :=
  rewrite normalize_output_eq;
  destruct (heap st !! l) as [[?i|?o|?v]|] eqn:?Hl; cbn zeta;
  [ | destruct (is_s3 E (ProcessingOutput.destination o)) eqn:?Hs3;
    [| destruct (_current_job_name (self st)) as [?job|] eqn:?Hjob ] | ..];
  cbn [fst snd].

Lemma normalize_input_frame (count : nat) (l : loc) (st : State) :
  state_frame st (Processor.normalize_input E count l st).2.
Proof.
  input_cases l st; try reflexivity;
    apply state_frame_insert; rewrite Hl; cbn; eexists; (split; [done |]);
    first [apply same_but_name_and_source_named | apply same_but_name_and_source_set].
Qed.

Lemma normalize_output_frame (count : nat) (l : loc) (st : State) :
  state_frame st (Processor.normalize_output E count l st).2.
Proof.
  output_cases l st; try reflexivity;
    apply state_frame_insert; rewrite Hl; cbn; eexists; (split; [done |]);
    first [apply same_but_name_and_destination_named
          | apply same_but_name_and_destination_set].
Qed.

Lemma normalize_input_outside (ls : list loc) (count : nat) (l : loc) (st : State) :
  l ∈ ls → unchanged_outside ls st (Processor.normalize_input E count l st).2.
Proof.
  intros Hin. input_cases l st; try reflexivity; by apply unchanged_outside_insert.
Qed.

Lemma normalize_output_outside (ls : list loc) (count : nat) (l : loc) (st : State) :
  l ∈ ls → unchanged_outside ls st (Processor.normalize_output E count l st).2.
Proof.
  intros Hin. output_cases l st; try reflexivity; by apply unchanged_outside_insert.
Qed.

Lemma normalize_input_trace (count : nat) (l : loc) (st : State) :
  trace_extends st (Processor.normalize_input E count l st).2.
Proof.
  input_cases l st; try reflexivity;
    first [apply trace_extends_same | apply trace_extends_app].
Qed.

Lemma normalize_output_trace (count : nat) (l : loc) (st : State) :
  (Processor.normalize_output E count l st).2.(trace) = trace st.
Proof. output_cases l st; done. Qed.

(** Nothing but a [TypeError] leaves a turn. *)
Lemma normalize_input_raises (count : nat) (l : loc) (st : State) e st' :
  Processor.normalize_input E count l st = (Raise e, st') → e = TypeError.
Proof. input_cases l st; congruence. Qed.

Lemma normalize_output_raises (count : nat) (l : loc) (st : State) e st' :
  Processor.normalize_output E count l st = (Raise e, st') → e = TypeError.
Proof. output_cases l st; congruence. Qed.

Lemma normalize_input_wrong_type (count : nat) (l : loc) (st : State) :
  is_input (heap st) l = false →
  Processor.normalize_input E count l st = (Raise TypeError, st).
Proof.
  unfold is_input. intros H. rewrite normalize_input_eq.
  by destruct (heap st !! l) as [[i|a|v]|].
Qed.

Lemma normalize_output_wrong_type (count : nat) (l : loc) (st : State) :
  is_output (heap st) l = false →
  Processor.normalize_output E count l st = (Raise TypeError, st).
Proof.
  unfold is_output. intros H. rewrite normalize_output_eq.
  by destruct (heap st !! l) as [[i|a|v]|].
Qed.

Lemma normalize_input_returns (count : nat) (l : loc) (st : State) (job : string) :
  is_input (heap st) l = true → _current_job_name (self st) = Some job →
  (Processor.normalize_input E count l st).1 = Return tt.
Proof.
  unfold is_input. intros H Hj. rewrite normalize_input_eq, Hj.
  destruct (heap st !! l) as [[i|a|v]|]; try done. cbn zeta.
  by destruct (is_s3 E (ProcessingInput.source i)).
Qed.

Lemma normalize_output_returns (count : nat) (l : loc) (st : State) (job : string) :
  is_output (heap st) l = true → _current_job_name (self st) = Some job →
  (Processor.normalize_output E count l st).1 = Return tt.
Proof.
  unfold is_output. intros H Hj. rewrite normalize_output_eq, Hj.
  destruct (heap st !! l) as [[i|o|v]|]; try done. cbn zeta.
  by destruct (is_s3 E (ProcessingOutput.destination o)).
Qed.

(** The loops of the source are loops over [enumerate]. *)
Lemma normalize_inputs_loop_enumerate (xs : list loc) (count : nat) (acc : list loc) :
  Processor.normalize_inputs_loop E count xs acc
  = enumerate_loop (Processor.normalize_input E) count xs acc.
Proof.
  revert count acc. induction xs as [|x rest IH]; intros count acc; [done |].
  cbn [Processor.normalize_inputs_loop enumerate_loop]. by rewrite IH.
Qed.

Lemma normalize_outputs_loop_enumerate (xs : list loc) (count : nat) (acc : list loc) :
  Processor.normalize_outputs_loop E count xs acc
  = enumerate_loop (Processor.normalize_output E) count xs acc.
Proof.
  revert count acc. induction xs as [|x rest IH]; intros count acc; [done |].
  cbn [Processor.normalize_outputs_loop enumerate_loop]. by rewrite IH.
Qed.

End Frames.

(** ** The loops as a whole *)

Section Loops.
Variable E : Env.

Lemma normalize_inputs_frame (inputs : option (list loc)) (st : State) :
  state_frame st (Processor._normalize_inputs E inputs st).2.
Proof.
  destruct inputs as [ls|]; [| reflexivity]. cbn [Processor._normalize_inputs].
  rewrite normalize_inputs_loop_enumerate.
  apply (enumerate_loop_keeps _ state_frame). intros. apply normalize_input_frame.
Qed.

Lemma normalize_outputs_frame (outputs : option (list loc)) (st : State) :
  state_frame st (Processor._normalize_outputs E outputs st).2.
Proof.
  destruct outputs as [ls|]; [| reflexivity]. cbn [Processor._normalize_outputs].
  rewrite normalize_outputs_loop_enumerate.
  apply (enumerate_loop_keeps _ state_frame). intros. apply normalize_output_frame.
Qed.

Lemma normalize_inputs_outside (ls : list loc) (st : State) :
  unchanged_outside ls st (Processor._normalize_inputs E (Some ls) st).2.
Proof.
  cbn [Processor._normalize_inputs]. rewrite normalize_inputs_loop_enumerate.
  apply (enumerate_loop_keeps _ (unchanged_outside ls)).
  intros. by apply normalize_input_outside.
Qed.

Lemma normalize_outputs_outside (ls : list loc) (st : State) :
  unchanged_outside ls st (Processor._normalize_outputs E (Some ls) st).2.
Proof.
  cbn [Processor._normalize_outputs]. rewrite normalize_outputs_loop_enumerate.
  apply (enumerate_loop_keeps _ (unchanged_outside ls)).
  intros. by apply normalize_output_outside.
Qed.

Lemma normalize_inputs_trace (inputs : option (list loc)) (st : State) :
  trace_extends st (Processor._normalize_inputs E inputs st).2.
Proof.
  destruct inputs as [ls|]; [| reflexivity]. cbn [Processor._normalize_inputs].
  rewrite normalize_inputs_loop_enumerate.
  apply (enumerate_loop_keeps _ trace_extends). intros. apply normalize_input_trace.
Qed.

Lemma normalize_inputs_result (ls ls' : list loc) (st st' : State) :
  Processor._normalize_inputs E (Some ls) st = (Return ls', st') → ls' = ls.
Proof.
  cbn [Processor._normalize_inputs]. rewrite normalize_inputs_loop_enumerate.
  apply enumerate_loop_returns.
Qed.

Lemma normalize_outputs_result (ls ls' : list loc) (st st' : State) :
  Processor._normalize_outputs E (Some ls) st = (Return ls', st') → ls' = ls.
Proof.
  cbn [Processor._normalize_outputs]. rewrite normalize_outputs_loop_enumerate.
  apply enumerate_loop_returns.
Qed.

(** With a job name set, a list of inputs is normalized without error. *)
Lemma normalize_inputs_succeeds (ls : list loc) (st : State) (job : string) :
  (∀ x, x ∈ ls → is_input (heap st) x = true) →
  _current_job_name (self st) = Some job →
  (Processor._normalize_inputs E (Some ls) st).1 = Return ls.
Proof.
  intros Hall Hjob. cbn [Processor._normalize_inputs].
  rewrite normalize_inputs_loop_enumerate.
  apply (enumerate_loop_succeeds _
           (λ s, _current_job_name (self s) = Some job
                 ∧ ∀ x, x ∈ ls → is_input (heap s) x = true)); [| done].
  intros count x s Hx [Hj Hin]. split.
  - by apply (normalize_input_returns E count x s job); [apply Hin |].
  - pose proof (normalize_input_frame E count x s) as Hf. split.
    + destruct Hf as [-> _]. done.
    + intros y Hy. rewrite (state_frame_is_input _ _ _ Hf). by apply Hin.
Qed.

Lemma normalize_outputs_succeeds (ls : list loc) (st : State) (job : string) :
  (∀ x, x ∈ ls → is_output (heap st) x = true) →
  _current_job_name (self st) = Some job →
  (Processor._normalize_outputs E (Some ls) st).1 = Return ls.
Proof.
  intros Hall Hjob. cbn [Processor._normalize_outputs].
  rewrite normalize_outputs_loop_enumerate.
  apply (enumerate_loop_succeeds _
           (λ s, _current_job_name (self s) = Some job
                 ∧ ∀ x, x ∈ ls → is_output (heap s) x = true)); [| done].
  intros count x s Hx [Hj Hin]. split.
  - by apply (normalize_output_returns E count x s job); [apply Hin |].
  - pose proof (normalize_output_frame E count x s) as Hf. split.
    + destruct Hf as [-> _]. done.
    + intros y Hy. rewrite (state_frame_is_output _ _ _ Hf). by apply Hin.
Qed.

Lemma state_frame_input (st st' : State) (l : loc) (i : ProcessingInput.t) :
  state_frame st st' → heap st !! l = Some (ObjInput i) →
  ∃ i', heap st' !! l = Some (ObjInput i') ∧ same_but_name_and_source i i'.
Proof. intros [_ H] Hl. specialize (H l). by rewrite Hl in H. Qed.

Lemma state_frame_output (st st' : State) (l : loc) (o : ProcessingOutput.t) :
  state_frame st st' → heap st !! l = Some (ObjOutput o) →
  ∃ o', heap st' !! l = Some (ObjOutput o') ∧ same_but_name_and_destination o o'.
Proof. intros [_ H] Hl. specialize (H l). by rewrite Hl in H. Qed.

(** C10: normalization returns the references it was given, in their
    order, so the very same objects; an input differs afterwards at most in
    [input_name] and [source], an output at most in [output_name] and
    [destination]; objects that are not in the list are untouched; a list of
    descriptors is normalized without error once the job is named; and
    without a list the result is empty and nothing changes. *)
Theorem normalize_returns_same_objects (ls : list loc) (st : State) :
  (let r := Processor._normalize_inputs E (Some ls) st in
   (∀ ls', r.1 = Return ls' → ls' = ls)
   ∧ (∀ l i, heap st !! l = Some (ObjInput i) →
        ∃ i', heap r.2 !! l = Some (ObjInput i') ∧ same_but_name_and_source i i')
   ∧ (∀ l, l ∉ ls → heap r.2 !! l = heap st !! l)
   ∧ (∀ job, (∀ x, x ∈ ls → is_input (heap st) x = true) →
        _current_job_name (self st) = Some job → r.1 = Return ls))
  ∧ (let r := Processor._normalize_outputs E (Some ls) st in
     (∀ ls', r.1 = Return ls' → ls' = ls)
     ∧ (∀ l o, heap st !! l = Some (ObjOutput o) →
          ∃ o', heap r.2 !! l = Some (ObjOutput o')
                ∧ same_but_name_and_destination o o')
     ∧ (∀ l, l ∉ ls → heap r.2 !! l = heap st !! l)
     ∧ (∀ job, (∀ x, x ∈ ls → is_output (heap st) x = true) →
          _current_job_name (self st) = Some job → r.1 = Return ls))
  ∧ Processor._normalize_inputs E None st = (Return [], st)
  ∧ Processor._normalize_outputs E None st = (Return [], st).
Proof.
  split; [| split; [| done]]; cbn zeta.
  - split; [| split; [| split]].
    + intros ls' H.
      destruct (Processor._normalize_inputs E (Some ls) st) as [r st'] eqn:Hr.
      cbn in H. subst r. by apply normalize_inputs_result in Hr.
    + intros l i. apply state_frame_input, normalize_inputs_frame.
    + apply normalize_inputs_outside.
    + intros job. apply normalize_inputs_succeeds.
  - split; [| split; [| split]].
    + intros ls' H.
      destruct (Processor._normalize_outputs E (Some ls) st) as [r st'] eqn:Hr.
      cbn in H. subst r. by apply normalize_outputs_result in Hr.
    + intros l o. apply state_frame_output, normalize_outputs_frame.
    + apply normalize_outputs_outside.
    + intros job. apply normalize_outputs_succeeds.
Qed.

(** C7: a list with an element that is not a [ProcessingInput] (for
    outputs: not a [ProcessingOutput]) makes the call raise a [TypeError];
    the state it leaves is the one the elements before the offending one
    lead to, so nothing after it is handled, and objects that are not among
    those earlier elements are untouched. *)
Theorem normalize_raises_at_wrong_type (pre : list loc) (bad : loc)
    (post : list loc) (st : State) :
  (is_input (heap st) bad = false →
     Processor._normalize_inputs E (Some (pre ++ bad :: post)) st
     = (Raise TypeError, (Processor._normalize_inputs E (Some pre) st).2)
     ∧ ∀ l, l ∉ pre →
         heap (Processor._normalize_inputs E (Some (pre ++ bad :: post)) st).2 !! l
         = heap st !! l)
  ∧ (is_output (heap st) bad = false →
     Processor._normalize_outputs E (Some (pre ++ bad :: post)) st
     = (Raise TypeError, (Processor._normalize_outputs E (Some pre) st).2)
     ∧ ∀ l, l ∉ pre →
         heap (Processor._normalize_outputs E (Some (pre ++ bad :: post)) st).2 !! l
         = heap st !! l).
Proof.
  split.
  - intros Hbad.
    assert (Processor._normalize_inputs E (Some (pre ++ bad :: post)) st
            = (Raise TypeError, (Processor._normalize_inputs E (Some pre) st).2))
      as Heq.
    { cbn [Processor._normalize_inputs]. rewrite !normalize_inputs_loop_enumerate.
      apply (enumerate_loop_stops _ (λ s b, is_input (heap s) b = false)); [| | | done].
      - intros. by apply normalize_input_wrong_type.
      - intros count x s Hs.
        by rewrite (state_frame_is_input _ _ _ (normalize_input_frame E count x s)).
      - intros. by eapply normalize_input_raises. }
    split; [done |]. rewrite Heq. apply normalize_inputs_outside.
  - intros Hbad.
    assert (Processor._normalize_outputs E (Some (pre ++ bad :: post)) st
            = (Raise TypeError, (Processor._normalize_outputs E (Some pre) st).2))
      as Heq.
    { cbn [Processor._normalize_outputs]. rewrite !normalize_outputs_loop_enumerate.
      apply (enumerate_loop_stops _ (λ s b, is_output (heap s) b = false)); [| | | done].
      - intros. by apply normalize_output_wrong_type.
      - intros count x s Hs.
        by rewrite (state_frame_is_output _ _ _ (normalize_output_frame E count x s)).
      - intros. by eapply normalize_output_raises. }
    split; [done |]. rewrite Heq. apply normalize_outputs_outside.
Qed.

End Loops.

(** ** Names *)

Section Names.
Variable body : nat → loc → M unit.
Variable nm : option obj → option string.
Variable prefix : string.

(** A turn that returns leaves its element named; other objects are as
    they were. *)
Hypothesis body_names : ∀ count x st st',
  body count x st = (Return tt, st') →
  nm (heap st' !! x) = Some (name_at prefix count (nm (heap st !! x))).
Hypothesis body_outside : ∀ count x st l,
  l ≠ x → heap (body count x st).2 !! l = heap st !! l.

Lemma enumerate_loop_keeps_name (xs : list loc) (count : nat) (acc : list loc)
    (st : State) (r : list loc) (st' : State) (l : loc) (n : string) :
  enumerate_loop body count xs acc st = (Return r, st') →
  nm (heap st !! l) = Some n → nm (heap st' !! l) = Some n.
Proof.
  revert count acc st. induction xs as [|x rest IH]; intros count acc st.
  - by intros [= _ <-].
  - rewrite enumerate_loop_cons.
    destruct (body count x st) as [[[]|e] st1] eqn:Hx; [| done].
    intros Hrest Hn. apply (IH _ _ _ Hrest).
    destruct (decide (l = x)) as [->|Hne].
    + by rewrite (body_names _ _ _ _ Hx), Hn.
    + pose proof (body_outside count x st l Hne) as H. rewrite Hx in H.
      cbn in H. by rewrite H.
Qed.

(** After the loop, a descriptor that had a name has it still, and one
    that had none is named after the position where it first stands. *)
Lemma enumerate_loop_names (xs : list loc) (count : nat) (acc : list loc)
    (st : State) (r : list loc) (st' : State) (k : nat) (l : loc) :
  enumerate_loop body count xs acc st = (Return r, st') →
  first_at xs k l →
  nm (heap st' !! l) = Some (name_at prefix (count + k) (nm (heap st !! l))).
Proof.
  revert count acc st k. induction xs as [|x rest IH]; intros count acc st k.
  - by intros _ [? _].
  - rewrite enumerate_loop_cons.
    destruct (body count x st) as [[[]|e] st1] eqn:Hx; [| done].
    intros Hrest [Hk Hfirst].
    destruct k as [|k].
    + injection Hk as ->. rewrite Nat.add_0_r.
      apply (enumerate_loop_keeps_name _ _ _ _ _ _ _ _ Hrest).
      by apply body_names.
    + assert (l ≠ x) as Hne.
      { intros ->. by apply (Hfirst 0); [lia |]. }
      pose proof (body_outside count x st l Hne) as H. rewrite Hx in H.
      cbn in H. rewrite <- H, <- Nat.add_succ_comm.
      apply (IH _ _ _ _ Hrest). split; [done |].
      intros j Hj. apply (Hfirst (S j)). lia.
Qed.

End Names.

Section NamesOfDescriptors.
Variable E : Env.

Lemma normalize_input_names (count : nat) (x : loc) (st st' : State) :
  Processor.normalize_input E count x st = (Return tt, st') →
  input_name_of (heap st' !! x)
  = Some (name_at "input-" count (input_name_of (heap st !! x))).
Proof.
  rewrite normalize_input_eq.
  destruct (heap st !! x) as [[i|a|v]|] eqn:Hx; [| done..]. cbn zeta.
  destruct (is_s3 E (ProcessingInput.source i)).
  - intros [= <-]. cbn [heap]. by rewrite lookup_insert_eq.
  - destruct (_current_job_name (self st)); [| done].
    intros [= <-]. cbn [heap]. by rewrite lookup_insert_eq.
Qed.

Lemma normalize_output_names (count : nat) (x : loc) (st st' : State) :
  Processor.normalize_output E count x st = (Return tt, st') →
  output_name_of (heap st' !! x)
  = Some (name_at "output-" count (output_name_of (heap st !! x))).
Proof.
  rewrite normalize_output_eq.
  destruct (heap st !! x) as [[i|o|v]|] eqn:Hx; [done | | done..]. cbn zeta.
  destruct (is_s3 E (ProcessingOutput.destination o)).
  - intros [= <-]. cbn [heap]. by rewrite lookup_insert_eq.
  - destruct (_current_job_name (self st)); [| done].
    intros [= <-]. cbn [heap]. by rewrite lookup_insert_eq.
Qed.

Lemma normalize_input_other (count : nat) (x : loc) (st : State) (l : loc) :
  l ≠ x → heap (Processor.normalize_input E count x st).2 !! l = heap st !! l.
Proof.
  intros Hne. apply (normalize_input_outside E [x]); [by left |].
  by intros ->%list_elem_of_singleton.
Qed.

Lemma normalize_output_other (count : nat) (x : loc) (st : State) (l : loc) :
  l ≠ x → heap (Processor.normalize_output E count x st).2 !! l = heap st !! l.
Proof.
  intros Hne. apply (normalize_output_outside E [x]); [by left |].
  by intros ->%list_elem_of_singleton.
Qed.

(** In a list without repetition every position is a first position. *)
Lemma first_at_NoDup (xs : list loc) (k : nat) (l : loc) :
  NoDup xs → xs !! k = Some l → first_at xs k l.
Proof.
  intros Hnd Hk. split; [done |]. intros j Hj Hjl.
  pose proof (NoDup_lookup _ _ _ _ Hnd Hjl Hk). lia.
Qed.

(** C2, as the code has it: once the job is named, a list of inputs is
    normalized without error, and the input that first stands at index [k]
    keeps the name it had, or, if it had none, is named ["input-"] followed
    by [k + 1]; the same for outputs with ["output-"].  (An object listed
    twice is named once, at its first position.) *)
Theorem default_names_by_first_position (ls : list loc) (st : State) (job : string) :
  _current_job_name (self st) = Some job →
  ((∀ x, x ∈ ls → is_input (heap st) x = true) →
     ∃ st', Processor._normalize_inputs E (Some ls) st = (Return ls, st')
       ∧ ∀ k l i, first_at ls k l → heap st !! l = Some (ObjInput i) →
           ∃ i', heap st' !! l = Some (ObjInput i')
             ∧ ProcessingInput.input_name i'
               = Some (match ProcessingInput.input_name i with
                       | Some n => n
                       | None => "input-" +:+ pretty (S k)
                       end))
  ∧ ((∀ x, x ∈ ls → is_output (heap st) x = true) →
     ∃ st', Processor._normalize_outputs E (Some ls) st = (Return ls, st')
       ∧ ∀ k l o, first_at ls k l → heap st !! l = Some (ObjOutput o) →
           ∃ o', heap st' !! l = Some (ObjOutput o')
             ∧ ProcessingOutput.output_name o'
               = Some (match ProcessingOutput.output_name o with
                       | Some n => n
                       | None => "output-" +:+ pretty (S k)
                       end)).
Proof.
  intros Hjob. split.
  - intros Hall.
    pose proof (normalize_inputs_succeeds E ls st job Hall Hjob) as Hr.
    destruct (Processor._normalize_inputs E (Some ls) st) as [r st'] eqn:Hrun.
    cbn in Hr. subst r. exists st'. split; [done |].
    intros k l i Hfirst Hl.
    pose proof (normalize_inputs_frame E (Some ls) st) as Hf. rewrite Hrun in Hf. cbn [snd] in Hf.
    destruct (state_frame_input _ _ _ _ Hf Hl) as (i' & Hl' & _).
    exists i'. split; [done |].
    cbn [Processor._normalize_inputs] in Hrun.
    rewrite normalize_inputs_loop_enumerate in Hrun.
    pose proof (enumerate_loop_names _ input_name_of "input-"
                  (normalize_input_names) (normalize_input_other)
                  _ _ _ _ _ _ _ _ Hrun Hfirst) as Hn.
    rewrite Hl, Hl' in Hn. exact Hn.
  - intros Hall.
    pose proof (normalize_outputs_succeeds E ls st job Hall Hjob) as Hr.
    destruct (Processor._normalize_outputs E (Some ls) st) as [r st'] eqn:Hrun.
    cbn in Hr. subst r. exists st'. split; [done |].
    intros k l o Hfirst Hl.
    pose proof (normalize_outputs_frame E (Some ls) st) as Hf. rewrite Hrun in Hf. cbn [snd] in Hf.
    destruct (state_frame_output _ _ _ _ Hf Hl) as (o' & Hl' & _).
    exists o'. split; [done |].
    cbn [Processor._normalize_outputs] in Hrun.
    rewrite normalize_outputs_loop_enumerate in Hrun.
    pose proof (enumerate_loop_names _ output_name_of "output-"
                  (normalize_output_names) (normalize_output_other)
                  _ _ _ _ _ _ _ _ Hrun Hfirst) as Hn.
    rewrite Hl, Hl' in Hn. exact Hn.
Qed.

End NamesOfDescriptors.

(** ** Sources and destinations *)

Section Uris.
Variable E : Env.

Lemma enumerate_inputs_self (xs : list loc) (count : nat) (acc : list loc) (st : State) :
  self (enumerate_loop (Processor.normalize_input E) count xs acc st).2 = self st.
Proof.
  apply (enumerate_loop_keeps _ state_frame). intros. apply normalize_input_frame.
Qed.

Lemma enumerate_inputs_outside (xs : list loc) (count : nat) (acc : list loc)
    (st : State) :
  unchanged_outside xs st
    (enumerate_loop (Processor.normalize_input E) count xs acc st).2.
Proof.
  apply (enumerate_loop_keeps _ (unchanged_outside xs)).
  intros. by apply normalize_input_outside.
Qed.

Lemma enumerate_inputs_trace (xs : list loc) (count : nat) (acc : list loc)
    (st : State) :
  trace_extends st (enumerate_loop (Processor.normalize_input E) count xs acc st).2.
Proof.
  apply (enumerate_loop_keeps _ trace_extends). intros. apply normalize_input_trace.
Qed.

Lemma enumerate_outputs_outside (xs : list loc) (count : nat) (acc : list loc)
    (st : State) :
  unchanged_outside xs st
    (enumerate_loop (Processor.normalize_output E) count xs acc st).2.
Proof.
  apply (enumerate_loop_keeps _ (unchanged_outside xs)).
  intros. by apply normalize_output_outside.
Qed.

(** A named input with an s3 source is left as it is. *)
Lemma enumerate_inputs_settled (xs : list loc) (count : nat) (acc : list loc)
    (st : State) (l : loc) (i : ProcessingInput.t) (n : string) :
  heap st !! l = Some (ObjInput i) →
  ProcessingInput.input_name i = Some n →
  is_s3 E (ProcessingInput.source i) = true →
  heap (enumerate_loop (Processor.normalize_input E) count xs acc st).2 !! l
  = Some (ObjInput i).
Proof.
  intros Hl Hn Hs3. revert count acc st Hl.
  induction xs as [|x rest IH]; intros count acc st Hl; [done |].
  rewrite enumerate_loop_cons.
  assert (heap (Processor.normalize_input E count x st).2 !! l = Some (ObjInput i))
    as Hl1.
  { destruct (decide (l = x)) as [<-|Hne].
    - rewrite normalize_input_eq, Hl. cbn zeta. rewrite Hs3, Hn. cbn [name_at snd heap].
      by rewrite lookup_insert_eq, set_input_name_id.
    - by rewrite normalize_input_other. }
  destruct (Processor.normalize_input E count x st) as [[[]|e] st1]; cbn [snd] in *.
  - by apply IH.
  - done.
Qed.

(** An input whose source was not an s3 URI ends with the URI the uploader
    returned for the location derived from its name. *)
Lemma enumerate_inputs_uploaded (xs : list loc) (count : nat) (acc : list loc)
    (st : State) (r : list loc) (st' : State) (job : string) (l : loc)
    (i : ProcessingInput.t) :
  enumerate_loop (Processor.normalize_input E) count xs acc st = (Return r, st') →
  _current_job_name (self st) = Some job →
  l ∈ xs → heap st !! l = Some (ObjInput i) →
  is_s3 E (ProcessingInput.source i) = false →
  ∃ i' n x,
    heap st' !! l = Some (ObjInput i')
    ∧ ProcessingInput.input_name i' = Some n
    ∧ ProcessingInput.source i' = upload_result E x (desired_input_uri E job n)
    ∧ EvUpload x (desired_input_uri E job n) ∈ trace st'
    ∧ (NoDup xs → x = ProcessingInput.source i).
Proof.
  revert count acc st i. induction xs as [|x rest IH]; intros count acc st i.
  - intros _ _ Hin. by apply elem_of_nil in Hin.
  - rewrite enumerate_loop_cons. intros Hrun Hjob Hin Hl Hs3.
    destruct (decide (l = x)) as [<-|Hne].
    + rewrite normalize_input_eq, Hl in Hrun. cbn zeta in Hrun.
      rewrite Hs3, Hjob in Hrun.
      set (n := name_at "input-" count (ProcessingInput.input_name i)) in *.
      set (i1 := ProcessingInput.set_source
                   (upload_result E (ProcessingInput.source i)
                      (desired_input_uri E job n))
                   (ProcessingInput.set_input_name (Some n) i)) in *.
      set (st1 := {| self := self st; heap := <[l := ObjInput i1]> (heap st);
                     trace := trace st ++
                       [EvUpload (ProcessingInput.source i)
                          (desired_input_uri E job n)] |}) in *.
      assert (heap st1 !! l = Some (ObjInput i1)) as Hl1
        by apply lookup_insert_eq.
      assert (EvUpload (ProcessingInput.source i) (desired_input_uri E job n)
                ∈ trace st') as Hev.
      { destruct (enumerate_inputs_trace rest (S count) (acc ++ [l]) st1)
          as [evs Hevs].
        rewrite Hrun in Hevs. cbn [snd] in Hevs. rewrite Hevs. cbn [trace st1].
        apply elem_of_app. left. apply elem_of_app. right. by left. }
      destruct (decide (l ∈ rest)) as [Hrest|Hrest].
      * destruct (is_s3 E (ProcessingInput.source i1)) eqn:Hs1.
        -- exists i1, n, (ProcessingInput.source i).
           pose proof (enumerate_inputs_settled rest (S count) (acc ++ [l]) st1
                         l i1 n Hl1 eq_refl Hs1) as Hst.
           rewrite Hrun in Hst. by repeat split.
        -- destruct (IH _ _ _ i1 Hrun Hjob Hrest Hl1 Hs1)
             as (i' & n' & x' & ? & ? & ? & ? & _).
           exists i', n', x'. repeat split; try done.
           intros Hnd. by apply NoDup_cons in Hnd as [? _].
      * exists i1, n, (ProcessingInput.source i).
        pose proof (enumerate_inputs_outside rest (S count) (acc ++ [l]) st1 l Hrest)
          as Hout.
        rewrite Hrun in Hout. cbn [snd] in Hout. rewrite Hout. by repeat split.
    + apply elem_of_cons in Hin as [? | Hin]; [done |].
      pose proof (normalize_input_other E count x st l Hne) as Hl1.
      pose proof (normalize_input_frame E count x st) as [Hself _].
      destruct (Processor.normalize_input E count x st) as [[[]|e] st1];
        cbn [snd] in *; [| done].
      rewrite <- Hl1 in Hl. rewrite <- Hself in Hjob.
      destruct (IH _ _ _ i Hrun Hjob Hin Hl Hs3)
        as (i' & n' & x' & ? & ? & ? & ? & Hx).
      exists i', n', x'. repeat split; try done.
      intros Hnd. apply Hx. by apply NoDup_cons in Hnd as [_ ?].
Qed.

(** An output whose destination is the default one keeps it. *)
Lemma enumerate_outputs_settled (xs : list loc) (count : nat) (acc : list loc)
    (st : State) (job : string) (l : loc) (o : ProcessingOutput.t) :
  _current_job_name (self st) = Some job →
  heap st !! l = Some (ObjOutput o) →
  ProcessingOutput.destination o = default_output_uri E job →
  ∃ o', heap (enumerate_loop (Processor.normalize_output E) count xs acc st).2 !! l
        = Some (ObjOutput o')
      ∧ ProcessingOutput.destination o' = default_output_uri E job.
Proof.
  revert count acc st o. induction xs as [|x rest IH]; intros count acc st o Hjob Hl Hd.
  - by exists o.
  - rewrite enumerate_loop_cons.
    assert (∃ o1, heap (Processor.normalize_output E count x st).2 !! l
                  = Some (ObjOutput o1)
                ∧ ProcessingOutput.destination o1 = default_output_uri E job)
      as (o1 & Hl1 & Hd1).
    { destruct (decide (l = x)) as [<-|Hne].
      - rewrite normalize_output_eq, Hl, Hjob. cbn zeta.
        destruct (is_s3 E (ProcessingOutput.destination o)); cbn [snd heap];
          rewrite lookup_insert_eq; eexists; by split.
      - exists o. by rewrite normalize_output_other. }
    pose proof (normalize_output_frame E count x st) as [Hself _].
    destruct (Processor.normalize_output E count x st) as [[[]|e] st1];
      cbn [snd] in *.
    + apply (IH _ _ _ o1); [congruence | done..].
    + by exists o1.
Qed.

(** An output whose destination was not an s3 URI ends with the default
    destination of the job. *)
Lemma enumerate_outputs_defaulted (xs : list loc) (count : nat) (acc : list loc)
    (st : State) (r : list loc) (st' : State) (job : string) (l : loc)
    (o : ProcessingOutput.t) :
  enumerate_loop (Processor.normalize_output E) count xs acc st = (Return r, st') →
  _current_job_name (self st) = Some job →
  l ∈ xs → heap st !! l = Some (ObjOutput o) →
  is_s3 E (ProcessingOutput.destination o) = false →
  ∃ o', heap st' !! l = Some (ObjOutput o')
      ∧ ProcessingOutput.destination o' = default_output_uri E job.
Proof.
  revert count acc st o. induction xs as [|x rest IH]; intros count acc st o.
  - intros _ _ Hin. by apply elem_of_nil in Hin.
  - rewrite enumerate_loop_cons. intros Hrun Hjob Hin Hl Hs3.
    destruct (decide (l = x)) as [<-|Hne].
    + rewrite normalize_output_eq, Hl in Hrun. cbn zeta in Hrun.
      rewrite Hs3, Hjob in Hrun.
      match type of Hrun with
      | enumerate_loop _ _ _ _ ?s = _ =>
          pose proof (enumerate_outputs_settled rest (S count) (acc ++ [l]) s job l
                        _ Hjob (lookup_insert_eq _ _ _) eq_refl) as Hst
      end.
      by rewrite Hrun in Hst.
    + apply elem_of_cons in Hin as [? | Hin]; [done |].
      pose proof (normalize_output_other E count x st l Hne) as Hl1.
      pose proof (normalize_output_frame E count x st) as [Hself _].
      destruct (Processor.normalize_output E count x st) as [[[]|e] st1];
        cbn [snd] in *; [| done].
      rewrite <- Hl1 in Hl. rewrite <- Hself in Hjob.
      by apply (IH _ _ _ o Hrun Hjob Hin Hl Hs3).
Qed.

End Uris.

Section NormalizedUris.
Variable E : Env.

Lemma first_at_elem_of (xs : list loc) (k : nat) (l : loc) : first_at xs k l → l ∈ xs.
Proof. intros [Hk _]. by eapply list_elem_of_lookup_2. Qed.

(** C1, as the code has it.  Once the job is named: an input whose source
    is not an s3 URI ends with the URI the uploader returned for the
    location [os.path.join("s3://", bucket, job, "input", name)], having
    been uploaded there (from its own source, when it is listed once); that
    location reads [s3://bucket/job/input/name] when bucket and job are
    plain components and the name does not start with ["/"].  An output
    whose destination is not an s3 URI ends with a destination under
    [s3://bucket/job/output]. *)
Theorem normalized_uris (ls : list loc) (st : State) (job : string)
    (k : nat) (l : loc) :
  _current_job_name (self st) = Some job → first_at ls k l →
  (∀ i, (∀ x, x ∈ ls → is_input (heap st) x = true) →
     heap st !! l = Some (ObjInput i) →
     is_s3 E (ProcessingInput.source i) = false →
     let n := name_at "input-" (S k) (ProcessingInput.input_name i) in
     let uri := posixpath.join "s3://" [default_bucket E; job; "input"; n] in
     ∃ st' i' x,
       Processor._normalize_inputs E (Some ls) st = (Return ls, st')
       ∧ heap st' !! l = Some (ObjInput i')
       ∧ ProcessingInput.input_name i' = Some n
       ∧ ProcessingInput.source i' = upload_result E x uri
       ∧ EvUpload x uri ∈ trace st'
       ∧ (NoDup ls → x = ProcessingInput.source i)
       ∧ (posixpath.plain (default_bucket E) → posixpath.plain job →
          posixpath.startswith n "/" = false →
          uri = "s3://" +:+ default_bucket E +:+ "/" +:+ job +:+ "/input/" +:+ n))
  ∧ (∀ o, (∀ x, x ∈ ls → is_output (heap st) x = true) →
     heap st !! l = Some (ObjOutput o) →
     is_s3 E (ProcessingOutput.destination o) = false →
     ∃ st' o',
       Processor._normalize_outputs E (Some ls) st = (Return ls, st')
       ∧ heap st' !! l = Some (ObjOutput o')
       ∧ (posixpath.plain (default_bucket E) → posixpath.plain job →
          ∃ rest, ProcessingOutput.destination o'
                  = "s3://" +:+ default_bucket E +:+ "/" +:+ job +:+ "/output" +:+ rest)).
Proof.
  intros Hjob Hfirst. pose proof (first_at_elem_of _ _ _ Hfirst) as Hin. split.
  - intros i Hall Hl Hs3 n uri.
    pose proof (normalize_inputs_succeeds E ls st job Hall Hjob) as Hr.
    destruct (Processor._normalize_inputs E (Some ls) st) as [r st'] eqn:Hrun.
    cbn in Hr. subst r.
    cbn [Processor._normalize_inputs] in Hrun.
    rewrite normalize_inputs_loop_enumerate in Hrun.
    destruct (enumerate_inputs_uploaded E _ _ _ _ _ _ job l i Hrun Hjob Hin Hl Hs3)
      as (i' & n' & x & Hl' & Hn' & Hsrc & Hev & Hx).
    pose proof (enumerate_loop_names _ input_name_of "input-"
                  (normalize_input_names E) (normalize_input_other E)
                  _ _ _ _ _ _ _ _ Hrun Hfirst) as Hn.
    rewrite Hl, Hl' in Hn. cbn [input_name_of] in Hn. rewrite Hn' in Hn.
    injection Hn as ->.
    exists st', i', x. repeat split; try done.
    intros Hb Hj Hstart. unfold uri.
    rewrite posixpath_facts.join_s3_uri; [| done | done | | done].
    + reflexivity.
    + by repeat split.
  - intros o Hall Hl Hs3.
    pose proof (normalize_outputs_succeeds E ls st job Hall Hjob) as Hr.
    destruct (Processor._normalize_outputs E (Some ls) st) as [r st'] eqn:Hrun.
    cbn in Hr. subst r.
    cbn [Processor._normalize_outputs] in Hrun.
    rewrite normalize_outputs_loop_enumerate in Hrun.
    destruct (enumerate_outputs_defaulted E _ _ _ _ _ _ job l o Hrun Hjob Hin Hl Hs3)
      as (o' & Hl' & Hd).
    exists st', o'. repeat split; try done.
    intros Hb Hj. exists "". rewrite Hd. unfold default_output_uri.
    rewrite posixpath_facts.join_s3_prefix by done.
    reflexivity.
Qed.

(** Two outputs with different names get the same default destination: the
    output's name is not part of it. *)
Lemma default_destination_ignores_name (ls : list loc) (st : State) (job : string)
    (l1 l2 : loc) (o1 o2 : ProcessingOutput.t) :
  _current_job_name (self st) = Some job →
  (∀ x, x ∈ ls → is_output (heap st) x = true) →
  l1 ∈ ls → l2 ∈ ls →
  heap st !! l1 = Some (ObjOutput o1) → heap st !! l2 = Some (ObjOutput o2) →
  is_s3 E (ProcessingOutput.destination o1) = false →
  is_s3 E (ProcessingOutput.destination o2) = false →
  ∃ st' o1' o2',
    Processor._normalize_outputs E (Some ls) st = (Return ls, st')
    ∧ heap st' !! l1 = Some (ObjOutput o1') ∧ heap st' !! l2 = Some (ObjOutput o2')
    ∧ ProcessingOutput.destination o1' = ProcessingOutput.destination o2'.
Proof.
  intros Hjob Hall Hin1 Hin2 Hl1 Hl2 Hs1 Hs2.
  pose proof (normalize_outputs_succeeds E ls st job Hall Hjob) as Hr.
  destruct (Processor._normalize_outputs E (Some ls) st) as [r st'] eqn:Hrun.
  cbn in Hr. subst r.
  cbn [Processor._normalize_outputs] in Hrun.
  rewrite normalize_outputs_loop_enumerate in Hrun.
  destruct (enumerate_outputs_defaulted E _ _ _ _ _ _ job l1 o1 Hrun Hjob Hin1 Hl1 Hs1)
    as (o1' & Hl1' & Hd1).
  destruct (enumerate_outputs_defaulted E _ _ _ _ _ _ job l2 o2 Hrun Hjob Hin2 Hl2 Hs2)
    as (o2' & Hl2' & Hd2).
  exists st', o1', o2'. repeat split; try done. congruence.
Qed.

End NormalizedUris.

(** ** What [Processor.run] leaves alone *)

#[global] Instance same_entrypoint_preorder : PreOrder same_entrypoint.
Proof.
  split.
  - by intros st.
  - intros st1 st2 st3 H12 H23. unfold same_entrypoint in *. congruence.
Qed.

Section Keeps.
Context {R : relation State} `{!PreOrder R}.

Lemma keeps_ret {A} (a : A) : keeps R (mret a).
Proof. intros st. reflexivity. Qed.

Lemma keeps_raise {A} (e : exn) : keeps R (@raise A e).
Proof. intros st. reflexivity. Qed.

Lemma keeps_bind {A B} (m : M A) (f : A → M B) :
  keeps R m → (∀ a, keeps R (f a)) → keeps R (m ≫= f).
Proof.
  intros Hm Hf st. unfold mbind, M_bind.
  pose proof (Hm st) as H1.
  destruct (m st) as [[a|e] st1]; cbn [snd] in *; [| done].
  etransitivity; [exact H1 | apply Hf].
Qed.

Lemma keeps_mapM {A B} (f : A → M B) (l : list A) :
  (∀ a, keeps R (f a)) → keeps R (mapM_ f l).
Proof.
  intros Hf. induction l as [|a l IH]; cbn [mapM_].
  - apply keeps_ret.
  - apply keeps_bind; [done |]. intros b.
    apply keeps_bind; [done |]. intros bs. apply keeps_ret.
Qed.

End Keeps.

Section RunKeepsEntrypoint.
Variable E : Env.

Lemma keeps_entrypoint_same_self {A} (m : M A) :
  (∀ st, self (m st).2 = self st) → keeps same_entrypoint m.
Proof. intros H st. unfold same_entrypoint. by rewrite H. Qed.

Lemma keeps_entrypoint_modify (f : processor → processor) :
  (∀ p, entrypoint (f p) = entrypoint p) → keeps same_entrypoint (modify_self f).
Proof. intros H st. apply H. Qed.

Lemma input_request_keeps (l : loc) : keeps same_entrypoint (ProcessingJob.input_request l).
Proof.
  apply keeps_entrypoint_same_self. intros st.
  unfold ProcessingJob.input_request, mbind, M_bind, getobj.
  destruct (heap st !! l) as [[i|o|v]|]; try done.
  by destruct (ProcessingInput.to_request_dict i).
Qed.

Lemma start_new_keeps (inputs outputs : list loc) :
  keeps same_entrypoint (ProcessingJob.start_new inputs outputs).
Proof.
  unfold ProcessingJob.start_new.
  apply keeps_bind; [apply keeps_mapM, input_request_keeps |]. intros ins.
  apply keeps_bind; [apply keeps_mapM, input_request_keeps |]. intros outs.
  apply keeps_bind; [by apply keeps_entrypoint_same_self |]. intros p.
  apply keeps_bind; [by apply keeps_entrypoint_same_self |]. intros _.
  apply keeps_ret.
Qed.

Lemma wait_keeps (j : processing_job) (logs : bool) :
  keeps same_entrypoint (ProcessingJob.wait j logs).
Proof. apply keeps_entrypoint_same_self. by destruct logs. Qed.

(** [Processor.run] never assigns [self.entrypoint]. *)
Lemma run_keeps_entrypoint (inputs outputs : option (list loc))
    (arguments : option (list string)) (wait logs : bool) (job_name : option string) :
  keeps same_entrypoint (Processor.run E inputs outputs arguments wait logs job_name).
Proof.
  unfold Processor.run. destruct (logs && negb wait); [apply keeps_raise |].
  apply keeps_bind.
  { apply keeps_entrypoint_same_self. intros st.
    by destruct (generate_current_job_name_pure E job_name st) as [n ->]. }
  intros n. apply keeps_bind; [by apply keeps_entrypoint_modify |]. intros _.
  apply keeps_bind.
  { apply keeps_entrypoint_same_self. intros st.
    by destruct (normalize_inputs_frame E inputs st) as [-> _]. }
  intros normalized_inputs. apply keeps_bind.
  { apply keeps_entrypoint_same_self. intros st.
    by destruct (normalize_outputs_frame E outputs st) as [-> _]. }
  intros normalized_outputs.
  apply keeps_bind; [by apply keeps_entrypoint_modify |]. intros _.
  apply keeps_bind; [apply start_new_keeps |]. intros j.
  apply keeps_bind; [by apply keeps_entrypoint_modify |]. intros _.
  destruct wait; [apply wait_keeps | apply keeps_ret].
Qed.

(** With a list of inputs, [ScriptProcessor.run] reaches [Processor.run]
    with the code uploaded, the code input appended and the entrypoint
    set. *)
Lemma script_run_Some (command : list string) (code : string)
    (script_name : option string) (l : list loc) (outputs : option (list loc))
    (arguments : option (list string)) (wait logs : bool)
    (job_name : option string) (st : State) (name : string) :
  ScriptProcessor._get_customer_script_name E code script_name = Return name →
  ∃ job,
    let uri := posixpath.join "s3://" [default_bucket E; job; "input"; "code"] in
    let c := fresh (dom (heap st)) in
    ScriptProcessor.run E command code script_name (Some l)
      outputs arguments wait logs job_name st
    = Processor.run E (Some (l ++ [c])) outputs arguments wait logs job_name
        {| self := with_entrypoint
                     (Some (command ++ [posixpath.join "/input/" ["code"; name]]))
                     (with_current_job_name (Some job) (self st));
           heap := <[c := ObjInput (ProcessingInput.init (upload_result E code uri)
                                      "/input/code" (Some "code"))]> (heap st);
           trace := trace st ++ [EvUpload code uri] |}.
Proof.
  intros Hname.
  destruct (generate_current_job_name_pure E job_name st) as [n Hn].
  exists n. cbn zeta. unfold ScriptProcessor.run.
  unfold mbind at 1. unfold M_bind at 1. rewrite Hn.
  rewrite Hname. reflexivity.
Qed.

Lemma script_run_entrypoint (command : list string) (code : string)
    (script_name : option string) (l : list loc) (outputs : option (list loc))
    (arguments : option (list string)) (wait logs : bool)
    (job_name : option string) (st : State) (name : string) :
  ScriptProcessor._get_customer_script_name E code script_name = Return name →
  entrypoint (self (ScriptProcessor.run E command code script_name (Some l)
                      outputs arguments wait logs job_name st).2)
  = Some (command ++ [posixpath.join "/input/" ["code"; name]]).
Proof.
  intros Hname.
  destruct (script_run_Some command code script_name l outputs arguments
              wait logs job_name st name Hname) as [job ->].
  by rewrite run_keeps_entrypoint.
Qed.

(** C4: for an existing local file [code] the script name is its base name,
    and the entrypoint becomes the command followed by the script's path in
    the container, ["/input/code/<base name>"]: that is what
    [_set_entrypoint] stores and what [ScriptProcessor.run], given a list of
    inputs, leaves in [self.entrypoint].  For ["script.py"] and
    [["python3"]] it is [["python3"; "/input/code/script.py"]]. *)
Theorem entrypoint_of_local_file (command : list string) (code : string)
    (script_name : option string) (st : State) :
  isfile E code = true → is_s3 E code = false → command ≠ [] →
  let derived := command ++ ["/input/code/" +:+ posixpath.basename code] in
  ScriptProcessor._get_customer_script_name E code script_name
    = Return (posixpath.basename code)
  ∧ (ScriptProcessor._set_entrypoint command (posixpath.basename code) st).1 = Return tt
  ∧ entrypoint (self (ScriptProcessor._set_entrypoint command
                        (posixpath.basename code) st).2) = Some derived
  ∧ (∀ inputs outputs arguments wait logs job_name,
       entrypoint (self (ScriptProcessor.run E command code script_name (Some inputs)
                           outputs arguments wait logs job_name st).2) = Some derived)
  ∧ (code = "script.py" → command = ["python3"] →
     derived = ["python3"; "/input/code/script.py"]).
Proof.
  intros Hf Hs _ derived.
  pose proof (script_name_of_local_file E code script_name Hf Hs) as Hname.
  assert (posixpath.join "/input/" ["code"; posixpath.basename code]
          = "/input/code/" +:+ posixpath.basename code) as Hpath
    by apply posixpath_facts.join_code_script, posixpath_facts.basename_not_absolute.
  split; [done |]. split; [done |]. split; [| split].
  - rewrite set_entrypoint_spec. cbn [self entrypoint with_entrypoint snd].
    by rewrite Hpath.
  - intros inputs outputs arguments wait logs job_name.
    rewrite (script_run_entrypoint command code script_name inputs outputs arguments
               wait logs job_name st _ Hname).
    by rewrite Hpath.
  - by intros -> ->.
Qed.

End RunKeepsEntrypoint.

(** The file ["script.py"] run with [["python3"]], alone and through
    [ScriptProcessor.run] with one input. *)
Lemma entrypoint_of_script_py :
  isfile Sample.E "script.py" = true
  ∧ is_s3 Sample.E "script.py" = false
  ∧ entrypoint (self (ScriptProcessor._set_entrypoint ["python3"]
                        (posixpath.basename "script.py") Sample.st1).2)
    = Some ["python3"; "/input/code/script.py"]
  ∧ entrypoint (self (ScriptProcessor.run Sample.E ["python3"] "script.py" None
                        (Some [0]) (Some [1]) None true true None Sample.st1).2)
    = Some ["python3"; "/input/code/script.py"].
Proof.
  split; [reflexivity |]. split; [reflexivity |].
  destruct (entrypoint_of_local_file Sample.E ["python3"] "script.py" None Sample.st1)
    as (_ & _ & Hset & Hrun & _); [reflexivity | reflexivity | discriminate |].
  split; [exact Hset |]. apply Hrun.
Defined.

(** ** The statements at work on the sample world *)

Lemma sample_inputs (ls : list loc) :
  ls ⊆ [0; 2] → ∀ x, x ∈ ls → is_input (heap Sample.st1) x = true.
Proof.
  intros Hsub x Hx. apply Hsub in Hx.
  repeat (apply elem_of_cons in Hx as [-> | Hx]; [reflexivity |]).
  by apply elem_of_nil in Hx.
Defined.

Lemma sample_outputs (ls : list loc) :
  ls ⊆ [1] → ∀ x, x ∈ ls → is_output (heap Sample.st1) x = true.
Proof.
  intros Hsub x Hx. apply Hsub in Hx.
  repeat (apply elem_of_cons in Hx as [-> | Hx]; [reflexivity |]).
  by apply elem_of_nil in Hx.
Defined.

Lemma first_at_head (x : loc) (rest : list loc) : first_at (x :: rest) 0 x.
Proof. split; [done |]. intros j Hj. lia. Defined.

(** A local file listed first, before a remote one: it is uploaded under
    [s3://bkt/job/input/input-1]. *)
Lemma normalized_uris_sample :
  ∃ st' i' x,
    Processor._normalize_inputs Sample.E (Some [0; 2]) Sample.st1 = (Return [0; 2], st')
    ∧ heap st' !! 0 = Some (ObjInput i')
    ∧ ProcessingInput.input_name i' = Some "input-1"
    ∧ ProcessingInput.source i'
      = upload_result Sample.E x "s3://bkt/job/input/input-1"
    ∧ EvUpload x "s3://bkt/job/input/input-1" ∈ trace st'.
Proof.
  destruct (normalized_uris Sample.E [0; 2] Sample.st1 "job" 0 0 eq_refl
              (first_at_head 0 [2])) as [Hin _].
  destruct (Hin Sample.local_input (sample_inputs [0; 2] (reflexivity _))
              eq_refl eq_refl)
    as (st' & i' & x & H1 & H2 & H3 & H4 & H5 & _).
  exists st', i', x. repeat split; assumption.
Defined.

(** C1 does not hold as stated: the output named ["out"] gets the
    destination [s3://bkt/job/output], without its name; and the source of
    the local input is what the uploader answered, here the key of the
    uploaded file, below the location derived from the name. *)
Lemma normalized_uris_differ :
  (∃ st' o',
     Processor._normalize_outputs Sample.E (Some [1]) Sample.st1 = (Return [1], st')
     ∧ heap st' !! 1 = Some (ObjOutput o')
     ∧ ProcessingOutput.output_name o' = Some "out"
     ∧ ProcessingOutput.destination o' = "s3://bkt/job/output"
     ∧ ProcessingOutput.destination o' ≠ "s3://bkt/job/output/out")
  ∧ (∃ st' i',
       Processor._normalize_inputs Sample.E (Some [0]) Sample.st1 = (Return [0], st')
       ∧ heap st' !! 0 = Some (ObjInput i')
       ∧ ProcessingInput.input_name i' = Some "input-1"
       ∧ ProcessingInput.source i' = "s3://bkt/job/input/input-1/data.csv"
       ∧ ProcessingInput.source i' ≠ "s3://bkt/job/input/input-1").
Proof.
  split.
  - eexists _, _. split; [vm_compute; reflexivity |].
    split; [vm_compute; reflexivity |]. by repeat split.
  - eexists _, _. split; [vm_compute; reflexivity |].
    split; [vm_compute; reflexivity |]. by repeat split.
Qed.

(** An unnamed input listed first gets the name ["input-1"]. *)
Lemma default_names_sample :
  ∃ st' i',
    Processor._normalize_inputs Sample.E (Some [2; 0]) Sample.st1 = (Return [2; 0], st')
    ∧ heap st' !! 2 = Some (ObjInput i')
    ∧ ProcessingInput.input_name i' = Some "input-1".
Proof.
  destruct (default_names_by_first_position Sample.E [2; 0] Sample.st1 "job" eq_refl)
    as [Hin _].
  assert ([2; 0] ⊆ [0; 2]) as Hsub
    by (intros x; rewrite !elem_of_cons, !elem_of_nil; tauto).
  destruct (Hin (sample_inputs [2; 0] Hsub)) as (st' & Hrun & Hnames).
  destruct (Hnames 0 2 Sample.remote_input (first_at_head 2 [0]) eq_refl)
    as (i' & Hl & Hn).
  by exists st', i'.
Defined.

(** C2 does not hold as stated: an unnamed input listed twice is named once,
    after its first position; the descriptor at position 2 is then called
    ["input-1"], not ["input-2"]. *)
Lemma repeated_input_named_once :
  ∃ st' i',
    Processor._normalize_inputs Sample.E (Some [2; 2]) Sample.st1 = (Return [2; 2], st')
    ∧ [2; 2] !! 1 = Some 2
    ∧ heap Sample.st1 !! 2 = Some (ObjInput Sample.remote_input)
    ∧ ProcessingInput.input_name Sample.remote_input = None
    ∧ heap st' !! 2 = Some (ObjInput i')
    ∧ ProcessingInput.input_name i' = Some "input-1"
    ∧ ProcessingInput.input_name i' ≠ Some "input-2".
Proof.
  eexists _, _. split; [vm_compute; reflexivity |].
  split; [reflexivity |]. split; [reflexivity |]. split; [reflexivity |].
  split; [vm_compute; reflexivity |]. by split.
Qed.

(** A directory with a script name, and a file with one. *)
Lemma get_customer_script_name_sample :
  ScriptProcessor._get_customer_script_name Sample.E "src" (Some "main.py")
    = Return "main.py"
  ∧ ScriptProcessor._get_customer_script_name Sample.E "script.py" (Some "main.py")
    = Return "script.py".
Proof.
  destruct (get_customer_script_name_cases Sample.E "src" (Some "main.py"))
    as (_ & Hname & _).
  destruct (get_customer_script_name_cases Sample.E "script.py" (Some "main.py"))
    as (_ & _ & Hbase & _).
  split.
  - apply Hname; [reflexivity | by right].
  - apply Hbase.
    + by right.
    + intros [_ [=]].
    + intros [_ [[=] | [=]]].
Defined.

(** A string among the inputs: the input before it is normalized, the one
    after it is not. *)
Lemma normalize_raises_at_wrong_type_sample :
  Processor._normalize_inputs Sample.E (Some ([0] ++ 3 :: [2])) Sample.st1
  = (Raise TypeError, (Processor._normalize_inputs Sample.E (Some [0]) Sample.st1).2)
  ∧ heap (Processor._normalize_inputs Sample.E (Some ([0] ++ 3 :: [2])) Sample.st1).2 !! 2
    = Some (ObjInput Sample.remote_input).
Proof.
  destruct (normalize_raises_at_wrong_type Sample.E [0] 3 [2] Sample.st1) as [Hin _].
  destruct (Hin eq_refl) as [Hraise Hout].
  split; [exact Hraise |].
  rewrite Hout; [reflexivity |]. by intros [=]%list_elem_of_singleton.
Defined.

(** The same two references come back, and the destination of the local
    input is as it was. *)
Lemma normalize_returns_same_objects_sample :
  (Processor._normalize_inputs Sample.E (Some [0; 2]) Sample.st1).1 = Return [0; 2]
  ∧ ∃ i', heap (Processor._normalize_inputs Sample.E (Some [0; 2]) Sample.st1).2 !! 0
          = Some (ObjInput i')
        ∧ ProcessingInput.destination i' = "/opt/ml/processing/input".
Proof.
  destruct (normalize_returns_same_objects Sample.E [0; 2] Sample.st1)
    as [(_ & Hframe & _ & Hret) _].
  split.
  - apply (Hret "job"); [apply sample_inputs; reflexivity | reflexivity].
  - destruct (Hframe 0 Sample.local_input eq_refl) as (i' & Hl & Hd & _).
    by exists i'.
Defined.

(** * Further properties *)

(** ** What the request dictionaries hold *)

Lemma py_opt_str_inj (a b : option string) : py_opt_str a = py_opt_str b → a = b.
Proof. destruct a, b; cbn; congruence. Qed.

(** The inner dictionary of an input's request, compression included. *)
Lemma input_request_inner (i : ProcessingInput.t) (d : gmap string pyval) :
  ProcessingInput.to_request_dict i = Return d →
  ∃ inner, d !! "S3Input" = Some (PDict inner)
    ∧ d !! "InputName" = Some (py_opt_str (ProcessingInput.input_name i))
    ∧ inner !! "S3Uri" = Some (PStr (ProcessingInput.source i))
    ∧ inner !! "LocalPath" = Some (PStr (ProcessingInput.destination i))
    ∧ inner !! "S3DataType" = Some (PStr (ProcessingInput.s3_data_type i))
    ∧ inner !! "S3InputMode" = Some (PStr (ProcessingInput.s3_input_mode i))
    ∧ inner !! "S3DownloadMode" = Some (PStr (ProcessingInput.s3_download_mode i))
    ∧ inner !! "S3DataDistributionType"
      = Some (PStr (ProcessingInput.s3_data_distribution_type i))
    ∧ inner !! "S3CompressionType" = PStr <$> ProcessingInput.s3_compression_type i.
Proof.
  unfold ProcessingInput.to_request_dict.
  destruct (_ && _); [done |]. intros [= <-].
  eexists. split; [by rewrite lookup_insert_ne, lookup_insert_eq |].
  split; [by rewrite lookup_insert_eq |].
  destruct (ProcessingInput.s3_compression_type i) as [c|]; unfold ProcessingInput.s3_input;
    repeat split;
    repeat first [ rewrite lookup_insert_eq; reflexivity
                 | rewrite lookup_insert_ne by done
                 | apply lookup_empty ].
Qed.

Lemma output_request_inner (o : ProcessingOutput.t) :
  ∃ d inner, ProcessingOutput.to_request_dict o = Return d
    ∧ d !! "S3Output" = Some (PDict inner)
    ∧ d !! "OutputName" = Some (py_opt_str (ProcessingOutput.output_name o))
    ∧ inner !! "S3Uri" = Some (PStr (ProcessingOutput.destination o))
    ∧ inner !! "LocalPath" = Some (PStr (ProcessingOutput.source o))
    ∧ inner !! "S3UploadMode" = Some (PStr (ProcessingOutput.s3_upload_mode o))
    ∧ inner !! "KmsKeyId" = PStr <$> ProcessingOutput.kms_key_id o.
Proof.
  unfold ProcessingOutput.to_request_dict. eexists _, _. split; [reflexivity |].
  split; [by rewrite lookup_insert_ne, lookup_insert_eq |].
  split; [by rewrite lookup_insert_eq |].
  destruct (ProcessingOutput.kms_key_id o) as [k|];
    repeat split;
    repeat first [ rewrite lookup_insert_eq; reflexivity
                 | rewrite lookup_insert_ne by done
                 | apply lookup_empty ].
Qed.

(** X1: an output always serializes: [ProcessingOutput.to_request_dict]
    never raises; the S3 URI of the request is the output's destination and
    the local path its source; and the key [KmsKeyId] is there, with the
    key id, exactly when [kms_key_id] is not [None]. *)
Theorem output_request_dict (o : ProcessingOutput.t) :
  ∃ d, ProcessingOutput.to_request_dict o = Return d
    ∧ d !! "OutputName" = Some (py_opt_str (ProcessingOutput.output_name o))
    ∧ subscript2 d "S3Output" "S3Uri" = Some (PStr (ProcessingOutput.destination o))
    ∧ subscript2 d "S3Output" "LocalPath" = Some (PStr (ProcessingOutput.source o))
    ∧ subscript2 d "S3Output" "S3UploadMode"
      = Some (PStr (ProcessingOutput.s3_upload_mode o))
    ∧ (∀ k, ProcessingOutput.kms_key_id o = Some k ↔
            subscript2 d "S3Output" "KmsKeyId" = Some (PStr k))
    ∧ (ProcessingOutput.kms_key_id o = None ↔
       subscript2 d "S3Output" "KmsKeyId" = None).
Proof.
  destruct (output_request_inner o) as (d & inner & Hd & Hin & Hn & H1 & H2 & H3 & H4).
  exists d. unfold subscript2. rewrite Hin, H1, H2, H3, H4.
  repeat split; try done.
  - by intros ->.
  - destruct (ProcessingOutput.kms_key_id o); cbn; congruence.
  - by intros ->.
  - by destruct (ProcessingOutput.kms_key_id o).
Qed.

Lemma fmap_PStr_inj (a b : option string) : PStr <$> a = PStr <$> b → a = b.
Proof. destruct a, b; cbn; congruence. Qed.

(** X2: serialization loses nothing: two inputs with the same request
    dictionary are the same input, and two outputs with the same request
    dictionary are the same output. *)
Theorem request_dict_determines_descriptor :
  (∀ i1 i2 d, ProcessingInput.to_request_dict i1 = Return d →
              ProcessingInput.to_request_dict i2 = Return d → i1 = i2)
  ∧ (∀ o1 o2, ProcessingOutput.to_request_dict o1 = ProcessingOutput.to_request_dict o2 →
              o1 = o2).
Proof.
  split.
  - intros i1 i2 d H1 H2.
    destruct (input_request_inner i1 d H1)
      as (m1 & Hm1 & Hn1 & Ha1 & Hb1 & Hc1 & Hd1 & He1 & Hf1 & Hg1).
    destruct (input_request_inner i2 d H2)
      as (m2 & Hm2 & Hn2 & Ha2 & Hb2 & Hc2 & Hd2 & He2 & Hf2 & Hg2).
    rewrite Hm1 in Hm2. injection Hm2 as <-.
    rewrite Hn1 in Hn2. injection Hn2 as Hn%py_opt_str_inj.
    rewrite Ha1 in Ha2. rewrite Hb1 in Hb2. rewrite Hc1 in Hc2. rewrite Hd1 in Hd2.
    rewrite He1 in He2. rewrite Hf1 in Hf2. rewrite Hg1 in Hg2.
    apply fmap_PStr_inj in Hg2.
    destruct i1, i2; cbn in *. congruence.
  - intros o1 o2 Heq.
    destruct (output_request_inner o1) as (d1 & m1 & Hr1 & Hm1 & Hn1 & Ha1 & Hb1 & Hc1 & Hk1).
    destruct (output_request_inner o2) as (d2 & m2 & Hr2 & Hm2 & Hn2 & Ha2 & Hb2 & Hc2 & Hk2).
    rewrite Hr1, Hr2 in Heq. injection Heq as <-.
    rewrite Hm1 in Hm2. injection Hm2 as <-.
    rewrite Hn1 in Hn2. injection Hn2 as Hn%py_opt_str_inj.
    rewrite Ha1 in Ha2. rewrite Hb1 in Hb2. rewrite Hc1 in Hc2. rewrite Hk1 in Hk2.
    apply fmap_PStr_inj in Hk2.
    destruct o1, o2; cbn in *. congruence.
Qed.

(** ** Normalization that has nothing to do *)

#[global] Instance same_trace_preorder : PreOrder same_trace.
Proof.
  split.
  - by intros st.
  - intros st1 st2 st3 H12 H23. unfold same_trace in *. congruence.
Qed.

#[global] Instance uploads_of_local_preorder E : PreOrder (uploads_of_local E).
Proof.
  split.
  - intros st. exists []. by rewrite app_nil_r.
  - intros st1 st2 st3 (e1 & H1 & F1) (e2 & H2 & F2). exists (e1 ++ e2). split.
    + by rewrite H2, H1, app_assoc.
    + by apply Forall_app.
Qed.

Section Settled.
Variable E : Env.

Lemma enumerate_loop_noop (body : nat → loc → M unit) (xs : list loc) (st : State) :
  (∀ count x, x ∈ xs → body count x st = (Return tt, st)) →
  ∀ count acc, enumerate_loop body count xs acc st = (Return (acc ++ xs), st).
Proof.
  induction xs as [|x rest IH]; intros Hbody count acc.
  - cbn. by rewrite app_nil_r.
  - rewrite enumerate_loop_cons, Hbody by left.
    rewrite IH; [by rewrite <- app_assoc |].
    intros c y Hy. apply Hbody. by right.
Qed.

Lemma normalize_input_settled (count : nat) (l : loc) (st : State) :
  input_settled E (heap st) l = true →
  Processor.normalize_input E count l st = (Return tt, st).
Proof.
  unfold input_settled. intros H. rewrite normalize_input_eq.
  destruct (heap st !! l) as [[i|a|v]|] eqn:Hl; try done.
  apply andb_true_iff in H as [[n Hn]%bool_decide_eq_true Hs3].
  cbn zeta. rewrite Hs3, Hn. cbn [name_at].
  by rewrite (set_input_name_id i n Hn), (insert_id _ _ _ Hl), state_eta.
Qed.

Lemma normalize_output_settled (count : nat) (l : loc) (st : State) :
  output_settled E (heap st) l = true →
  Processor.normalize_output E count l st = (Return tt, st).
Proof.
  unfold output_settled. intros H. rewrite normalize_output_eq.
  destruct (heap st !! l) as [[i|o|v]|] eqn:Hl; try done.
  apply andb_true_iff in H as [[n Hn]%bool_decide_eq_true Hs3].
  cbn zeta. rewrite Hs3, Hn. cbn [name_at].
  by rewrite (set_output_name_id o n Hn), (insert_id _ _ _ Hl), state_eta.
Qed.

Lemma normalize_inputs_settled (ls : list loc) (st : State) :
  (∀ x, x ∈ ls → input_settled E (heap st) x = true) →
  Processor._normalize_inputs E (Some ls) st = (Return ls, st).
Proof.
  intros Hall.
  cbn [Processor._normalize_inputs]. rewrite normalize_inputs_loop_enumerate.
  apply (enumerate_loop_noop _ ls st). intros count x Hx.
  by apply normalize_input_settled, Hall.
Qed.

Lemma normalize_outputs_settled (ls : list loc) (st : State) :
  (∀ x, x ∈ ls → output_settled E (heap st) x = true) →
  Processor._normalize_outputs E (Some ls) st = (Return ls, st).
Proof.
  intros Hall.
  cbn [Processor._normalize_outputs]. rewrite normalize_outputs_loop_enumerate.
  apply (enumerate_loop_noop _ ls st). intros count x Hx.
  by apply normalize_output_settled, Hall.
Qed.

(** X3: descriptors that are named and already point to s3 are left alone:
    the call returns the list, uploads nothing and changes nothing, whether
    or not a job name is set. *)
Theorem normalize_settled_changes_nothing (ls : list loc) (st : State) :
  ((∀ x, x ∈ ls → input_settled E (heap st) x = true) →
     Processor._normalize_inputs E (Some ls) st = (Return ls, st))
  ∧ ((∀ x, x ∈ ls → output_settled E (heap st) x = true) →
     Processor._normalize_outputs E (Some ls) st = (Return ls, st)).
Proof.
  split; [apply normalize_inputs_settled | apply normalize_outputs_settled].
Qed.

Lemma input_settled_lookup (h h' : gmap loc obj) (l : loc) :
  h' !! l = h !! l → input_settled E h' l = input_settled E h l.
Proof. unfold input_settled. by intros ->. Qed.

(** One turn that returns leaves its input settled, when the uploader
    answers with s3 URIs. *)
Lemma normalize_input_settles (count : nat) (x : loc) (st st' : State) :
  uploader_answers_s3 E →
  Processor.normalize_input E count x st = (Return tt, st') →
  input_settled E (heap st') x = true.
Proof.
  intros Hup. rewrite normalize_input_eq. unfold input_settled.
  destruct (heap st !! x) as [[i|a|v]|] eqn:Hx; [| done..]. cbn zeta.
  destruct (is_s3 E (ProcessingInput.source i)) eqn:Hs3.
  - intros [= <-]. cbn [heap]. rewrite lookup_insert_eq. cbn. by rewrite Hs3.
  - destruct (_current_job_name (self st)); [| done].
    intros [= <-]. cbn [heap]. rewrite lookup_insert_eq. cbn. by rewrite Hup.
Qed.

Lemma enumerate_inputs_keeps_settled (xs : list loc) (count : nat) (acc : list loc)
    (st : State) (l : loc) :
  input_settled E (heap st) l = true →
  input_settled E (heap (enumerate_loop (Processor.normalize_input E)
                           count xs acc st).2) l = true.
Proof.
  unfold input_settled at 1. intros H.
  destruct (heap st !! l) as [[i|a|v]|] eqn:Hl; try done.
  apply andb_true_iff in H as [[n Hn]%bool_decide_eq_true Hs3].
  unfold input_settled.
  rewrite (enumerate_inputs_settled E xs count acc st l i n Hl Hn Hs3).
  rewrite Hs3, Hn. by rewrite bool_decide_eq_true_2.
Qed.

Lemma enumerate_inputs_all_settled (xs : list loc) (count : nat) (acc : list loc)
    (st : State) (r : list loc) (st' : State) :
  uploader_answers_s3 E →
  enumerate_loop (Processor.normalize_input E) count xs acc st = (Return r, st') →
  ∀ l, l ∈ xs → input_settled E (heap st') l = true.
Proof.
  intros Hup. revert count acc st.
  induction xs as [|x rest IH]; intros count acc st Hrun l Hl.
  - by apply elem_of_nil in Hl.
  - rewrite enumerate_loop_cons in Hrun.
    destruct (Processor.normalize_input E count x st) as [[[]|e] st1] eqn:Hx; [| done].
    destruct (decide (l ∈ rest)) as [Hrest|Hrest]; [by eapply IH |].
    apply elem_of_cons in Hl as [-> | ?]; [| done].
    pose proof (enumerate_inputs_keeps_settled rest (S count) (acc ++ [x]) st1 x
                  (normalize_input_settles _ _ _ _ Hup Hx)) as H.
    by rewrite Hrun in H.
Qed.

(** X4: normalizing inputs a second time does nothing, when the uploader
    answers with s3 URIs: after a call that returned, the same call returns
    the same list, uploads nothing more and leaves every descriptor as
    it is. *)
Theorem normalize_inputs_twice (ls ls' : list loc) (st st' : State) :
  uploader_answers_s3 E →
  Processor._normalize_inputs E (Some ls) st = (Return ls', st') →
  Processor._normalize_inputs E (Some ls') st' = (Return ls', st').
Proof.
  intros Hup Hrun.
  pose proof (normalize_inputs_result E _ _ _ _ Hrun) as ->.
  apply normalize_inputs_settled.
  cbn [Processor._normalize_inputs] in Hrun.
  rewrite normalize_inputs_loop_enumerate in Hrun.
  by apply (enumerate_inputs_all_settled _ _ _ _ _ _ Hup Hrun).
Qed.

Lemma output_settled_step (count : nat) (x : loc) (st : State) (l : loc) :
  output_settled E (heap st) l = true →
  output_settled E (heap (Processor.normalize_output E count x st).2) l = true.
Proof.
  intros H. destruct (decide (l = x)) as [->|Hne].
  - by rewrite normalize_output_settled.
  - unfold output_settled. by rewrite normalize_output_other.
Qed.

Lemma normalize_output_settles (count : nat) (x : loc) (st st' : State) (job : string) :
  _current_job_name (self st) = Some job →
  is_s3 E (default_output_uri E job) = true →
  Processor.normalize_output E count x st = (Return tt, st') →
  output_settled E (heap st') x = true.
Proof.
  intros Hjob Hd. rewrite normalize_output_eq, Hjob. unfold output_settled.
  destruct (heap st !! x) as [[i|o|v]|] eqn:Hx; [done | | done..]. cbn zeta.
  destruct (is_s3 E (ProcessingOutput.destination o)) eqn:Hs3.
  - intros [= <-]. cbn [heap]. rewrite lookup_insert_eq. cbn. by rewrite Hs3.
  - intros [= <-]. cbn [heap]. rewrite lookup_insert_eq.
    cbn [ProcessingOutput.destination ProcessingOutput.set_destination
         ProcessingOutput.output_name ProcessingOutput.set_output_name].
    by rewrite Hd, bool_decide_eq_true_2 by eauto.
Qed.

Lemma enumerate_outputs_keeps_settled (xs : list loc) (count : nat) (acc : list loc)
    (st : State) (l : loc) :
  output_settled E (heap st) l = true →
  output_settled E (heap (enumerate_loop (Processor.normalize_output E)
                            count xs acc st).2) l = true.
Proof.
  revert count acc st. induction xs as [|x rest IH]; intros count acc st H; [done |].
  rewrite enumerate_loop_cons.
  pose proof (output_settled_step count x st l H) as H1.
  destruct (Processor.normalize_output E count x st) as [[[]|e] st1]; cbn [snd] in *.
  - by apply IH.
  - done.
Qed.

Lemma enumerate_outputs_all_settled (xs : list loc) (count : nat) (acc : list loc)
    (st : State) (r : list loc) (st' : State) (job : string) :
  _current_job_name (self st) = Some job →
  is_s3 E (default_output_uri E job) = true →
  enumerate_loop (Processor.normalize_output E) count xs acc st = (Return r, st') →
  ∀ l, l ∈ xs → output_settled E (heap st') l = true.
Proof.
  intros Hjob Hd. revert count acc st Hjob.
  induction xs as [|x rest IH]; intros count acc st Hjob Hrun l Hl.
  - by apply elem_of_nil in Hl.
  - rewrite enumerate_loop_cons in Hrun.
    pose proof (normalize_output_frame E count x st) as [Hself _].
    destruct (Processor.normalize_output E count x st) as [[[]|e] st1] eqn:Hx; [| done].
    cbn [snd] in Hself.
    destruct (decide (l ∈ rest)) as [Hrest|Hrest].
    + eapply IH; [| done..]. congruence.
    + apply elem_of_cons in Hl as [-> | ?]; [| done].
      pose proof (enumerate_outputs_keeps_settled rest (S count) (acc ++ [x]) st1 x
                    (normalize_output_settles _ _ _ _ _ Hjob Hd Hx)) as H.
      by rewrite Hrun in H.
Qed.

(** X5: normalizing outputs a second time does nothing, when the default
    destination of the job is itself an s3 URI: after a call that returned,
    the same call returns the same list and leaves every descriptor as it
    is. *)
Theorem normalize_outputs_twice (ls ls' : list loc) (st st' : State) (job : string) :
  _current_job_name (self st) = Some job →
  is_s3 E (default_output_uri E job) = true →
  Processor._normalize_outputs E (Some ls) st = (Return ls', st') →
  Processor._normalize_outputs E (Some ls') st' = (Return ls', st').
Proof.
  intros Hjob Hd Hrun.
  pose proof (normalize_outputs_result E _ _ _ _ Hrun) as ->.
  apply normalize_outputs_settled.
  cbn [Processor._normalize_outputs] in Hrun.
  rewrite normalize_outputs_loop_enumerate in Hrun.
  by apply (enumerate_outputs_all_settled _ _ _ _ _ _ job Hjob Hd Hrun).
Qed.

End Settled.

(** ** What normalization sends out *)

Section Sent.
Variable E : Env.

Lemma normalize_output_same_trace (count : nat) (l : loc) (st : State) :
  same_trace st (Processor.normalize_output E count l st).2.
Proof. apply normalize_output_trace. Qed.


Lemma normalize_input_uploads_local (count : nat) (l : loc) (st : State) :
  uploads_of_local E st (Processor.normalize_input E count l st).2.
Proof.
  rewrite normalize_input_eq.
  destruct (heap st !! l) as [[i|a|v]|]; cbn zeta; try reflexivity.
  destruct (is_s3 E (ProcessingInput.source i)) eqn:Hs3.
  - exists []. cbn. by rewrite app_nil_r.
  - destruct (_current_job_name (self st)).
    + eexists [_]. split; [done |]. apply Forall_singleton. eauto.
    + exists []. cbn. by rewrite app_nil_r.
Qed.




End Sent.

(** ** Generated names do not clash *)

Section DistinctNames.
Variable E : Env.

Lemma first_at_exists (xs : list loc) (l : loc) : l ∈ xs → ∃ k, first_at xs k l.
Proof.
  induction xs as [|x rest IH]; intros Hl; [by apply elem_of_nil in Hl |].
  destruct (decide (l = x)) as [->|Hne].
  - exists 0. split; [done |]. intros j Hj. lia.
  - apply elem_of_cons in Hl as [? | Hl]; [done |].
    destruct (IH Hl) as (k & Hk & Hfirst). exists (S k). split; [done |].
    intros [|j] Hj; cbn; [congruence |]. apply Hfirst. lia.
Qed.

Lemma first_at_inj (xs : list loc) (k : nat) (l1 l2 : loc) :
  first_at xs k l1 → first_at xs k l2 → l1 = l2.
Proof. intros [H1 _] [H2 _]. congruence. Qed.

Lemma generated_name_inj (prefix : string) (k1 k2 : nat) :
  prefix +:+ pretty k1 = prefix +:+ pretty k2 → k1 = k2.
Proof. intros H%(inj (String.app prefix)). by apply (inj pretty) in H. Qed.

(** X8: generated names are pairwise different: two different inputs of the
    list that both came without a name are named differently, and so are two
    such outputs. *)
Theorem generated_names_differ (ls : list loc) (st : State) (job : string)
    (l1 l2 : loc) :
  _current_job_name (self st) = Some job → l1 ∈ ls → l2 ∈ ls → l1 ≠ l2 →
  ((∀ x, x ∈ ls → is_input (heap st) x = true) →
     input_name_of (heap st !! l1) = None → input_name_of (heap st !! l2) = None →
     ∃ st' n1 n2,
       Processor._normalize_inputs E (Some ls) st = (Return ls, st')
       ∧ input_name_of (heap st' !! l1) = Some n1
       ∧ input_name_of (heap st' !! l2) = Some n2
       ∧ n1 ≠ n2)
  ∧ ((∀ x, x ∈ ls → is_output (heap st) x = true) →
     output_name_of (heap st !! l1) = None → output_name_of (heap st !! l2) = None →
     ∃ st' n1 n2,
       Processor._normalize_outputs E (Some ls) st = (Return ls, st')
       ∧ output_name_of (heap st' !! l1) = Some n1
       ∧ output_name_of (heap st' !! l2) = Some n2
       ∧ n1 ≠ n2).
Proof.
  intros Hjob Hin1 Hin2 Hne.
  destruct (first_at_exists ls l1 Hin1) as [k1 Hk1].
  destruct (first_at_exists ls l2 Hin2) as [k2 Hk2].
  assert (k1 ≠ k2) as Hk by (intros ->; by apply Hne, (first_at_inj ls k2)).
  split.
  - intros Hall Hn1 Hn2.
    pose proof (normalize_inputs_succeeds E ls st job Hall Hjob) as Hr.
    destruct (Processor._normalize_inputs E (Some ls) st) as [r st'] eqn:Hrun.
    cbn in Hr. subst r.
    cbn [Processor._normalize_inputs] in Hrun.
    rewrite normalize_inputs_loop_enumerate in Hrun.
    pose proof (enumerate_loop_names _ input_name_of "input-"
                  (normalize_input_names E) (normalize_input_other E)
                  _ _ _ _ _ _ _ _ Hrun Hk1) as H1.
    pose proof (enumerate_loop_names _ input_name_of "input-"
                  (normalize_input_names E) (normalize_input_other E)
                  _ _ _ _ _ _ _ _ Hrun Hk2) as H2.
    rewrite Hn1 in H1. rewrite Hn2 in H2. cbn [name_at] in H1, H2.
    eexists st', _, _. repeat split; [exact H1 | exact H2 |].
    intros Heq%generated_name_inj. lia.
  - intros Hall Hn1 Hn2.
    pose proof (normalize_outputs_succeeds E ls st job Hall Hjob) as Hr.
    destruct (Processor._normalize_outputs E (Some ls) st) as [r st'] eqn:Hrun.
    cbn in Hr. subst r.
    cbn [Processor._normalize_outputs] in Hrun.
    rewrite normalize_outputs_loop_enumerate in Hrun.
    pose proof (enumerate_loop_names _ output_name_of "output-"
                  (normalize_output_names E) (normalize_output_other E)
                  _ _ _ _ _ _ _ _ Hrun Hk1) as H1.
    pose proof (enumerate_loop_names _ output_name_of "output-"
                  (normalize_output_names E) (normalize_output_other E)
                  _ _ _ _ _ _ _ _ Hrun Hk2) as H2.
    rewrite Hn1 in H1. rewrite Hn2 in H2. cbn [name_at] in H1, H2.
    eexists st', _, _. repeat split; [exact H1 | exact H2 |].
    intros Heq%generated_name_inj. lia.
Qed.

End DistinctNames.

(** ** Submitting *)

Lemma bind_return {A B} (m : M A) (f : A → M B) (st : State) (a : A) (st' : State) :
  m st = (Return a, st') → (m ≫= f) st = f a st'.
Proof. intros H. unfold mbind, M_bind. by rewrite H. Qed.

Lemma bind_raise {A B} (m : M A) (f : A → M B) (st : State) (e : exn) (st' : State) :
  m st = (Raise e, st') → (m ≫= f) st = (Raise e, st').
Proof. intros H. unfold mbind, M_bind. by rewrite H. Qed.

Lemma input_accepted_is_input (h : gmap loc obj) (l : loc) :
  input_accepted h l = true → is_input h l = true.
Proof. unfold input_accepted, is_input. by destruct (h !! l) as [[]|]. Qed.

Lemma input_request_accepted (l : loc) (st : State) :
  input_accepted (heap st) l = true →
  ∃ v, descriptor_request (heap st) l = Some v
     ∧ ProcessingJob.input_request l st = (Return v, st).
Proof.
  unfold input_accepted, descriptor_request, ProcessingJob.input_request.
  unfold mbind, M_bind, getobj.
  destruct (heap st !! l) as [[i|o|v]|]; try done.
  unfold ProcessingInput.to_request_dict.
  destruct (_ && _); [done |]. intros _. eauto.
Qed.

Lemma input_request_refused (l : loc) (st : State) :
  is_input (heap st) l = true → input_accepted (heap st) l = false →
  ProcessingJob.input_request l st = (Raise ValueError, st).
Proof.
  unfold input_accepted, is_input, ProcessingJob.input_request.
  unfold mbind, M_bind, getobj.
  destruct (heap st !! l) as [[i|o|v]|]; try done.
  unfold ProcessingInput.to_request_dict.
  destruct (_ && _); [done |]. by intros _ [=].
Qed.

Lemma output_request_returns (l : loc) (st : State) :
  is_output (heap st) l = true →
  ∃ v, descriptor_request (heap st) l = Some v
     ∧ ProcessingJob.input_request l st = (Return v, st).
Proof.
  unfold is_output, descriptor_request, ProcessingJob.input_request.
  unfold mbind, M_bind, getobj.
  destruct (heap st !! l) as [[i|o|v]|]; try done. intros _. eauto.
Qed.

(** Serializing a list of descriptors: all of them, in order, without
    touching the state. *)
Lemma requests_return (ls : list loc) (st : State) :
  (∀ l, l ∈ ls → ∃ v, descriptor_request (heap st) l = Some v
                    ∧ ProcessingJob.input_request l st = (Return v, st)) →
  ∃ vs, mapM (descriptor_request (heap st)) ls = Some vs
      ∧ mapM_ ProcessingJob.input_request ls st = (Return vs, st).
Proof.
  induction ls as [|l ls IH]; intros Hall.
  - by exists [].
  - destruct (Hall l ltac:(left)) as (v & Hv & Hr).
    destruct IH as (vs & Hvs & Hrs); [intros; apply Hall; by right |].
    exists (v :: vs). split.
    + cbn. by rewrite Hv, Hvs.
    + cbn [mapM_]. rewrite (bind_return _ _ _ _ _ Hr), (bind_return _ _ _ _ _ Hrs).
      done.
Qed.

(** Serializing stops at the first input that is refused. *)
Lemma requests_refused (ls : list loc) (st : State) (bad : loc) :
  (∀ l, l ∈ ls → is_input (heap st) l = true) →
  bad ∈ ls → input_accepted (heap st) bad = false →
  mapM_ ProcessingJob.input_request ls st = (Raise ValueError, st).
Proof.
  induction ls as [|l ls IH]; intros Hall Hbad Hrefused.
  - by apply elem_of_nil in Hbad.
  - cbn [mapM_].
    destruct (input_accepted (heap st) l) eqn:Hl.
    + destruct (input_request_accepted l st Hl) as (v & _ & Hr).
      rewrite (bind_return _ _ _ _ _ Hr).
      apply elem_of_cons in Hbad as [-> | Hbad]; [congruence |].
      rewrite (bind_raise _ _ _ _ _ (IH ltac:(intros; apply Hall; by right) Hbad Hrefused)).
      done.
    + by rewrite (bind_raise _ _ _ _ _
                    (input_request_refused l st (Hall l ltac:(left)) Hl)).
Qed.

(** What the request says, key by key. *)
Lemma process_request_args_lookup (p : processor) (ins outs : list pyval) :
  let req := ProcessingJob.process_request_args p ins outs in
  req !! "inputs" = Some (PList ins)
  ∧ req !! "outputs" = Some (PList outs)
  ∧ req !! "job_name" = Some (py_opt_str (_current_job_name p))
  ∧ req !! "role_arn" = Some (PStr (role p))
  ∧ req !! "environment" = Some (env p)
  ∧ req !! "tags" = Some (tags p)
  ∧ req !! "network_config" = Some (default PNone (network_config p))
  ∧ subscript2 req "stopping_condition" "MaxRuntimeInSeconds"
    = Some (PInt (max_runtime_in_seconds p))
  ∧ subscript2 req "app_specification" "ImageUri" = Some (PStr (image_uri p))
  ∧ subscript2 req "app_specification" "ContainerArguments"
    = py_str_list <$> arguments p
  ∧ subscript2 req "app_specification" "ContainerEntrypoint"
    = py_str_list <$> entrypoint p.
Proof.
  cbn zeta. unfold subscript2, ProcessingJob.process_request_args.
  repeat split;
    repeat first [ rewrite lookup_insert_eq
                 | rewrite lookup_insert_ne by done
                 | rewrite lookup_singleton_eq ]; try reflexivity.
  all: unfold ProcessingJob.app_specification;
    destruct (arguments p), (entrypoint p);
    repeat first [ rewrite lookup_insert_eq
                 | rewrite lookup_insert_ne by done
                 | rewrite lookup_singleton_eq
                 | rewrite lookup_singleton_ne by done ]; reflexivity.
Qed.

Lemma start_new_accepted (inputs outputs : list loc) (st : State) :
  (∀ l, l ∈ inputs → input_accepted (heap st) l = true) →
  (∀ l, l ∈ outputs → is_output (heap st) l = true) →
  ∃ ins outs,
    mapM (descriptor_request (heap st)) inputs = Some ins
    ∧ mapM (descriptor_request (heap st)) outputs = Some outs
    ∧ ProcessingJob.start_new inputs outputs st
      = (Return {| job_name := _current_job_name (self st);
                   job_inputs := inputs; job_outputs := outputs |},
         {| self := self st; heap := heap st;
            trace := trace st ++
              [EvProcess (ProcessingJob.process_request_args (self st) ins outs)] |}).
Proof.
  intros Hacc Hout.
  destruct (requests_return inputs st) as (ins & Hins & Hrin).
  { intros l Hl. by apply input_request_accepted, Hacc. }
  destruct (requests_return outputs st) as (outs & Houts & Hrout).
  { intros l Hl. by apply output_request_returns, Hout. }
  exists ins, outs. split; [done |]. split; [done |].
  unfold ProcessingJob.start_new.
  rewrite (bind_return _ _ _ _ _ Hrin), (bind_return _ _ _ _ _ Hrout).
  reflexivity.
Qed.

Lemma start_new_refused (inputs outputs : list loc) (st : State) (bad : loc) :
  (∀ l, l ∈ inputs → is_input (heap st) l = true) →
  bad ∈ inputs → input_accepted (heap st) bad = false →
  ProcessingJob.start_new inputs outputs st = (Raise ValueError, st).
Proof.
  intros Hin Hbad Hrefused. unfold ProcessingJob.start_new.
  by rewrite (bind_raise _ _ _ _ _ (requests_refused inputs st bad Hin Hbad Hrefused)).
Qed.

(** X9: [ProcessingJob.start_new] submits once or not at all.  With every
    input accepted by [to_request_dict] it hands the session one request,
    holding the processor's current job name and the serialized inputs and
    outputs in their order, and returns a job of that name; with an input
    that is Gzip without Pipe it raises a [ValueError] and nothing has been
    submitted or changed. *)
Theorem start_new_submits_once (inputs outputs : list loc) (st : State) :
  (∀ l, l ∈ inputs → is_input (heap st) l = true) →
  (∀ l, l ∈ outputs → is_output (heap st) l = true) →
  ((∀ l, l ∈ inputs → input_accepted (heap st) l = true) →
     ∃ ins outs req,
       mapM (descriptor_request (heap st)) inputs = Some ins
       ∧ mapM (descriptor_request (heap st)) outputs = Some outs
       ∧ ProcessingJob.start_new inputs outputs st
         = (Return {| job_name := _current_job_name (self st);
                      job_inputs := inputs; job_outputs := outputs |},
            {| self := self st; heap := heap st;
               trace := trace st ++ [EvProcess req] |})
       ∧ req !! "job_name" = Some (py_opt_str (_current_job_name (self st)))
       ∧ req !! "inputs" = Some (PList ins)
       ∧ req !! "outputs" = Some (PList outs))
  ∧ (∀ bad, bad ∈ inputs → input_accepted (heap st) bad = false →
       ProcessingJob.start_new inputs outputs st = (Raise ValueError, st)).
Proof.
  intros Hin Hout. split.
  - intros Hacc.
    destruct (start_new_accepted inputs outputs st Hacc Hout)
      as (ins & outs & Hins & Houts & Hstart).
    destruct (process_request_args_lookup (self st) ins outs)
      as (Hi & Ho & Hj & _).
    by eexists ins, outs, _.
  - intros bad. by apply start_new_refused.
Qed.


(** ** Running a job *)

Section Run.
Variable E : Env.

Lemma state_frame_input_accepted (st st' : State) (l : loc) :
  state_frame st st' → input_accepted (heap st') l = input_accepted (heap st) l.
Proof.
  intros [_ H]. specialize (H l). unfold input_accepted.
  destruct (heap st !! l) as [[i|a|v]|]; cbn in H.
  - destruct H as (i' & -> & _ & _ & Hm & _ & _ & Hc). by rewrite Hm, Hc.
  - by destruct H as (a' & -> & _).
  - by rewrite H.
  - by rewrite H.
Qed.

(** Normalizing the inputs of [run]: the list comes back, within the frame,
    with nothing sent but uploads. *)
Lemma normalize_inputs_ok (inputs : option (list loc)) (st : State) (job : string) :
  (∀ l, l ∈ default [] inputs → is_input (heap st) l = true) →
  _current_job_name (self st) = Some job →
  ∃ st', Processor._normalize_inputs E inputs st = (Return (default [] inputs), st')
       ∧ state_frame st st' ∧ uploads_of_local E st st'.
Proof.
  intros Hall Hjob.
  pose proof (normalize_inputs_frame E inputs st) as Hf.
  destruct inputs as [ls|]; cbn [default] in *.
  - pose proof (normalize_inputs_succeeds E ls st job Hall Hjob) as Hr.
    assert (uploads_of_local E st (Processor._normalize_inputs E (Some ls) st).2) as Hu.
    { cbn [Processor._normalize_inputs]. rewrite normalize_inputs_loop_enumerate.
      apply (enumerate_loop_keeps _ (uploads_of_local E)).
      intros. apply normalize_input_uploads_local. }
    destruct (Processor._normalize_inputs E (Some ls) st) as [r st']. cbn in *.
    subst r. by exists st'.
  - exists st. repeat split; reflexivity.
Qed.

Lemma normalize_outputs_ok (outputs : option (list loc)) (st : State) (job : string) :
  (∀ l, l ∈ default [] outputs → is_output (heap st) l = true) →
  _current_job_name (self st) = Some job →
  ∃ st', Processor._normalize_outputs E outputs st = (Return (default [] outputs), st')
       ∧ state_frame st st' ∧ trace st' = trace st.
Proof.
  intros Hall Hjob.
  pose proof (normalize_outputs_frame E outputs st) as Hf.
  assert (trace (Processor._normalize_outputs E outputs st).2 = trace st) as Ht.
  { destruct outputs as [ls|]; [| done]. cbn [Processor._normalize_outputs].
    rewrite normalize_outputs_loop_enumerate.
    apply (enumerate_loop_keeps _ same_trace). intros. apply normalize_output_same_trace. }
  destruct outputs as [ls|]; cbn [default] in *.
  - pose proof (normalize_outputs_succeeds E ls st job Hall Hjob) as Hr.
    destruct (Processor._normalize_outputs E (Some ls) st) as [r st']. cbn in *.
    subst r. by exists st'.
  - by exists st.
Qed.

End Run.

#[global] Instance names_kept_preorder : PreOrder names_kept.
Proof.
  split.
  - by intros st l n.
  - intros st1 st2 st3 H12 H23 l n Hn. by apply H23, H12.
Qed.

Section RunWhole.
Variable E : Env.

Lemma normalize_input_names_kept (count : nat) (x : loc) (st : State) :
  names_kept st (Processor.normalize_input E count x st).2.
Proof.
  intros l n Hn. destruct (decide (l = x)) as [->|Hne].
  - rewrite normalize_input_eq.
    destruct (heap st !! x) as [[i|a|v]|] eqn:Hx; try done. cbn in Hn. cbn zeta.
    rewrite Hn. cbn [name_at].
    destruct (is_s3 E (ProcessingInput.source i));
      [| destruct (_current_job_name (self st))];
      cbn [snd heap]; by rewrite lookup_insert_eq.
  - by rewrite normalize_input_other.
Qed.

Lemma normalize_output_names_kept (count : nat) (x : loc) (st : State) :
  names_kept st (Processor.normalize_output E count x st).2.
Proof.
  intros l n Hn. destruct (decide (l = x)) as [->|Hne].
  - rewrite normalize_output_eq.
    destruct (heap st !! x) as [[i|o|v]|] eqn:Hx; cbn in Hn; try done.
    cbn [snd]. by rewrite Hx.
  - by rewrite normalize_output_other.
Qed.

Lemma normalize_inputs_names_kept (inputs : option (list loc)) (st : State) :
  names_kept st (Processor._normalize_inputs E inputs st).2.
Proof.
  destruct inputs as [ls|]; [| reflexivity]. cbn [Processor._normalize_inputs].
  rewrite normalize_inputs_loop_enumerate.
  apply (enumerate_loop_keeps _ names_kept). intros. apply normalize_input_names_kept.
Qed.

Lemma normalize_outputs_names_kept (outputs : option (list loc)) (st : State) :
  names_kept st (Processor._normalize_outputs E outputs st).2.
Proof.
  destruct outputs as [ls|]; [| reflexivity]. cbn [Processor._normalize_outputs].
  rewrite normalize_outputs_loop_enumerate.
  apply (enumerate_loop_keeps _ names_kept). intros. apply normalize_output_names_kept.
Qed.

(** [run] up to the call of [start_new]: named, normalized, arguments
    stored. *)
Lemma run_until_start_new (inputs outputs : option (list loc))
    (arguments : option (list string)) (wait logs : bool)
    (job_name : option string) (st : State) :
  logs && negb wait = false →
  (∀ l, l ∈ default [] inputs → is_input (heap st) l = true) →
  (∀ l, l ∈ default [] outputs → is_output (heap st) l = true) →
  ∃ n h4 ups,
    Processor._generate_current_job_name E job_name st = (Return n, st)
    ∧ Processor.run E inputs outputs arguments wait logs job_name st
      = ((j ← ProcessingJob.start_new (default [] inputs) (default [] outputs);
          modify_self (with_latest_job j);;
          if wait then ProcessingJob.wait j logs else mret tt)
           {| self := with_arguments arguments
                        (with_current_job_name (Some n) (self st));
              heap := h4; trace := trace st ++ ups |})
    ∧ (∀ l, obj_frame (heap st !! l) (h4 !! l))
    ∧ (∀ l m, input_name_of (heap st !! l) = Some m → input_name_of (h4 !! l) = Some m)
    ∧ Forall (λ ev, ∃ p d, ev = EvUpload p d ∧ is_s3 E p = false) ups.
Proof.
  intros Hflags Hin Hout.
  destruct (generate_current_job_name_pure E job_name st) as [n Hn].
  set (st1 := {| self := with_current_job_name (Some n) (self st);
                 heap := heap st; trace := trace st |}).
  destruct (normalize_inputs_ok E inputs st1 n Hin eq_refl)
    as (st2 & Hr2 & Hf2 & (ups & Htr & Hups)).
  pose proof (normalize_inputs_names_kept inputs st1) as Hk2.
  rewrite Hr2 in Hk2. cbn [snd] in Hk2.
  destruct (normalize_outputs_ok E outputs st2 n) as (st3 & Hr3 & Hf3 & Ht3).
  { intros l Hl. rewrite (state_frame_is_output _ _ _ Hf2). by apply Hout. }
  { destruct Hf2 as [-> _]. done. }
  pose proof (normalize_outputs_names_kept outputs st2) as Hk3.
  rewrite Hr3 in Hk3. cbn [snd] in Hk3.
  exists n, (heap st3), ups.
  split; [done |]. split; [| split; [| split]].
  - unfold Processor.run. rewrite Hflags.
    rewrite (bind_return _ _ _ _ _ Hn).
    rewrite (bind_return (modify_self _) _ st tt st1 eq_refl).
    rewrite (bind_return _ _ _ _ _ Hr2), (bind_return _ _ _ _ _ Hr3).
    rewrite (bind_return (modify_self _) _ st3 tt _ eq_refl).
    destruct Hf3 as [-> _]. destruct Hf2 as [-> _]. by rewrite Ht3, Htr.
  - intros l. destruct Hf2 as [_ H2]. destruct Hf3 as [_ H3].
    etransitivity; [apply (H2 l) | apply H3].
  - intros l m Hm. by apply Hk3, Hk2.
  - done.
Qed.

Lemma wait_spec (j : processing_job) (wait logs : bool) (st : State) :
  (if wait then ProcessingJob.wait j logs else mret tt) st
  = (Return tt, {| self := self st; heap := heap st;
                   trace := trace st ++ wait_events wait logs (job_name j) |}).
Proof.
  destruct wait, logs; cbn; try done.
  all: by rewrite app_nil_r, state_eta.
Qed.

(** The state a run that goes through ends in. *)
Lemma run_goes_through (inputs outputs : option (list loc))
    (arguments : option (list string)) (wait logs : bool)
    (job_name : option string) (st : State) :
  logs && negb wait = false →
  (∀ l, l ∈ default [] inputs → input_accepted (heap st) l = true) →
  (∀ l, l ∈ default [] outputs → is_output (heap st) l = true) →
  ∃ n h' ups ins outs,
    let p := with_arguments arguments (with_current_job_name (Some n) (self st)) in
    let j := {| job_name := Some n; job_inputs := default [] inputs;
                job_outputs := default [] outputs |} in
    Processor._generate_current_job_name E job_name st = (Return n, st)
    ∧ Processor.run E inputs outputs arguments wait logs job_name st
      = (Return tt,
         {| self := with_latest_job j p; heap := h';
            trace := (trace st ++ ups ++
                      [EvProcess (ProcessingJob.process_request_args p ins outs)])
                     ++ wait_events wait logs (Some n) |})
    ∧ mapM (descriptor_request h') (default [] inputs) = Some ins
    ∧ mapM (descriptor_request h') (default [] outputs) = Some outs
    ∧ (∀ l, obj_frame (heap st !! l) (h' !! l))
    ∧ (∀ l m, input_name_of (heap st !! l) = Some m → input_name_of (h' !! l) = Some m)
    ∧ Forall (λ ev, ∃ p d, ev = EvUpload p d ∧ is_s3 E p = false) ups.
Proof.
  intros Hflags Hacc Hout.
  destruct (run_until_start_new inputs outputs arguments wait logs job_name st Hflags)
    as (n & h4 & ups & Hn & Hrun & Hheap & Hnames & Hups); [| done |].
  { intros l Hl. by apply input_accepted_is_input, Hacc. }
  assert (state_frame st {| self := self st; heap := h4; trace := trace st |})
    as Hframe by done.
  match type of Hrun with _ = _ ?s => set (st4 := s) in * end.
  destruct (start_new_accepted (default [] inputs) (default [] outputs) st4)
    as (ins & outs & Hins & Houts & Hstart).
  { intros l Hl.
    rewrite <- (Hacc l Hl). apply (state_frame_input_accepted _ _ _ Hframe). }
  { intros l Hl.
    rewrite <- (Hout l Hl). apply (state_frame_is_output _ _ _ Hframe). }
  rewrite (bind_return _ _ _ _ _ Hstart) in Hrun.
  rewrite (bind_return (modify_self _) _ _ tt _ eq_refl), wait_spec in Hrun.
  exists n, h4, ups, ins, outs. cbn zeta.
  split; [done |]. split; [| done].
  rewrite Hrun. cbn [self heap trace st4 _current_job_name
                     with_arguments with_current_job_name].
  by rewrite <- !app_assoc.
Qed.

(** X10: a run that goes through.  Unless logs are asked for without
    waiting, with inputs that [to_request_dict] accepts and outputs that are
    outputs, [run] returns, and in this order: it uploads (local sources
    only), submits exactly one request, which carries the job name, the
    serialized normalized inputs and the arguments, and then waits as the
    flags say.  The processor ends with that job name, the given arguments,
    its entrypoint untouched, and one more job, the latest, made of the
    lists it was given. *)
Theorem run_uploads_submits_waits (inputs outputs : option (list loc))
    (args : option (list string)) (wait logs : bool)
    (job_name : option string) (st : State) :
  logs && negb wait = false →
  (∀ l, l ∈ default [] inputs → input_accepted (heap st) l = true) →
  (∀ l, l ∈ default [] outputs → is_output (heap st) l = true) →
  ∃ n st' ups req ins,
    Processor._generate_current_job_name E job_name st = (Return n, st)
    ∧ Processor.run E inputs outputs args wait logs job_name st = (Return tt, st')
    ∧ trace st'
      = trace st ++ ups ++ [EvProcess req] ++ wait_events wait logs (Some n)
    ∧ Forall (λ ev, ∃ p d, ev = EvUpload p d ∧ is_s3 E p = false) ups
    ∧ req !! "job_name" = Some (PStr n)
    ∧ req !! "inputs" = Some (PList ins)
    ∧ mapM (descriptor_request (heap st')) (default [] inputs) = Some ins
    ∧ subscript2 req "app_specification" "ContainerArguments"
      = py_str_list <$> args
    ∧ subscript2 req "app_specification" "ContainerEntrypoint"
      = py_str_list <$> entrypoint (self st)
    ∧ _current_job_name (self st') = Some n
    ∧ arguments (self st') = args
    ∧ entrypoint (self st') = entrypoint (self st)
    ∧ latest_job (self st')
      = Some {| job_name := Some n; job_inputs := default [] inputs;
                job_outputs := default [] outputs |}
    ∧ jobs (self st')
      = jobs (self st) ++ [{| job_name := Some n;
                              job_inputs := default [] inputs;
                              job_outputs := default [] outputs |}].
Proof.
  intros Hflags Hacc Hout.
  destruct (run_goes_through inputs outputs args wait logs job_name st
              Hflags Hacc Hout)
    as (n & h' & ups & ins & outs & Hn & Hrun & Hins & Houts & _ & _ & Hups).
  cbn zeta in Hrun.
  destruct (process_request_args_lookup
              (with_arguments args (with_current_job_name (Some n) (self st)))
              ins outs)
    as (Hi & _ & Hj & _ & _ & _ & _ & _ & _ & Ha & He).
  eexists n, _, ups, _, ins. split; [done |]. split; [exact Hrun |].
  cbn [self heap trace]. rewrite <- !app_assoc.
  by repeat split.
Qed.


End RunWhole.

(** ** Script mode, from end to end *)

Section ScriptRun.
Variable E : Env.

Lemma get_customer_script_name_raises (code : string) (script_name : option string) e :
  ScriptProcessor._get_customer_script_name E code script_name = Raise e →
  e = ValueError.
Proof.
  unfold ScriptProcessor._get_customer_script_name.
  destruct (isdir E code && _); [congruence |].
  destruct (if is_s3 E code || isdir E code then script_name else None); [done |].
  destruct (is_s3 E code || isfile E code); congruence.
Qed.

(** X13: a code path that cannot be resolved stops [ScriptProcessor.run]
    before anything leaves the process: the error is a [ValueError], nothing
    is uploaded or submitted, no descriptor is touched and the entrypoint is
    as it was; only the job name has been stored. *)
Theorem script_run_unresolved_code (command : list string) (code : string)
    (script_name : option string) (inputs outputs : option (list loc))
    (arguments : option (list string)) (wait logs : bool)
    (job_name : option string) (st : State) (e : exn) :
  ScriptProcessor._get_customer_script_name E code script_name = Raise e →
  ∃ n,
    Processor._generate_current_job_name E job_name st = (Return n, st)
    ∧ ScriptProcessor.run E command code script_name inputs outputs arguments
        wait logs job_name st
      = (Raise ValueError,
         {| self := with_current_job_name (Some n) (self st);
            heap := heap st; trace := trace st |}).
Proof.
  intros Hname. pose proof (get_customer_script_name_raises _ _ _ Hname) as ->.
  destruct (generate_current_job_name_pure E job_name st) as [n Hn].
  exists n. split; [done |]. unfold ScriptProcessor.run.
  rewrite (bind_return _ _ _ _ _ Hn).
  rewrite (bind_return (modify_self _) _ st tt _ eq_refl).
  rewrite Hname. reflexivity.
Qed.

(** X14: [ScriptProcessor.run] checks the flags last.  Asked for logs
    without waiting, with a code path that resolves and a list of inputs, it
    raises the [ValueError] of [Processor.run] only after the code has been
    uploaded, the code input created and the entrypoint set. *)
Theorem script_run_checks_flags_late (command : list string) (code : string)
    (script_name : option string) (l : list loc) (outputs : option (list loc))
    (arguments : option (list string)) (job_name : option string) (st : State)
    (name : string) :
  ScriptProcessor._get_customer_script_name E code script_name = Return name →
  ∃ n st',
    ScriptProcessor.run E command code script_name (Some l) outputs arguments
      false true job_name st = (Raise ValueError, st')
    ∧ trace st'
      = trace st ++
        [EvUpload code (posixpath.join "s3://" [default_bucket E; n; "input"; "code"])]
    ∧ entrypoint (self st')
      = Some (command ++ [posixpath.join "/input/" ["code"; name]])
    ∧ _current_job_name (self st') = Some n
    ∧ heap st !! fresh (dom (heap st)) = None
    ∧ is_input (heap st') (fresh (dom (heap st))) = true.
Proof.
  intros Hname.
  destruct (script_run_Some E command code script_name l outputs arguments
              false true job_name st name Hname) as [n Hrun].
  cbn zeta in Hrun. exists n. eexists. split; [rewrite Hrun; reflexivity |].
  cbn [self heap trace]. repeat split.
  - apply not_elem_of_dom, is_fresh.
  - unfold is_input. by rewrite lookup_insert_eq.
Qed.

Lemma script_run_named (command : list string) (code : string)
    (script_name : option string) (l : list loc) (outputs : option (list loc))
    (arguments : option (list string)) (wait logs : bool)
    (n : string) (st : State) (name : string) :
  ScriptProcessor._get_customer_script_name E code script_name = Return name →
  let uri := posixpath.join "s3://" [default_bucket E; n; "input"; "code"] in
  let c := fresh (dom (heap st)) in
  ScriptProcessor.run E command code script_name (Some l)
    outputs arguments wait logs (Some n) st
  = Processor.run E (Some (l ++ [c])) outputs arguments wait logs (Some n)
      {| self := with_entrypoint
                   (Some (command ++ [posixpath.join "/input/" ["code"; name]]))
                   (with_current_job_name (Some n) (self st));
         heap := <[c := ObjInput (ProcessingInput.init (upload_result E code uri)
                                    "/input/code" (Some "code"))]> (heap st);
         trace := trace st ++ [EvUpload code uri] |}.
Proof.
  intros Hname. cbn zeta. unfold ScriptProcessor.run.
  rewrite (bind_return _ _ st n st eq_refl).
  rewrite (bind_return (modify_self _) _ st tt _ eq_refl).
  rewrite Hname. reflexivity.
Qed.

(** X15: script mode from end to end, under a given job name.  With a code
    path that resolves, inputs that [to_request_dict] accepts and flags that
    agree, [ScriptProcessor.run] returns; the code is uploaded first, under
    [s3://bucket/job/input/code]; the job's inputs are the caller's inputs
    followed by one new input, named ["code"] and mounted at ["/input/code"];
    and the request submitted carries those inputs and, as container
    entrypoint, the command followed by the script's path. *)
Theorem script_run_submits_code_last (command : list string) (code : string)
    (script_name : option string) (l : list loc) (outputs : option (list loc))
    (arguments : option (list string)) (wait logs : bool)
    (n : string) (st : State) (name : string) :
  ScriptProcessor._get_customer_script_name E code script_name = Return name →
  logs && negb wait = false →
  (∀ x, x ∈ l → input_accepted (heap st) x = true) →
  (∀ x, x ∈ default [] outputs → is_output (heap st) x = true) →
  let c := fresh (dom (heap st)) in
  ∃ st' ups req ins i',
    ScriptProcessor.run E command code script_name (Some l)
      outputs arguments wait logs (Some n) st = (Return tt, st')
    ∧ trace st'
      = trace st ++
        [EvUpload code (posixpath.join "s3://" [default_bucket E; n; "input"; "code"])]
        ++ ups ++ [EvProcess req] ++ wait_events wait logs (Some n)
    ∧ Forall (λ ev, ∃ p d, ev = EvUpload p d ∧ is_s3 E p = false) ups
    ∧ req !! "inputs" = Some (PList ins)
    ∧ mapM (descriptor_request (heap st')) (l ++ [c]) = Some ins
    ∧ subscript2 req "app_specification" "ContainerEntrypoint"
      = Some (py_str_list (command ++ [posixpath.join "/input/" ["code"; name]]))
    ∧ heap st !! c = None
    ∧ heap st' !! c = Some (ObjInput i')
    ∧ ProcessingInput.input_name i' = Some "code"
    ∧ ProcessingInput.destination i' = "/input/code"
    ∧ latest_job (self st')
      = Some {| job_name := Some n; job_inputs := l ++ [c];
                job_outputs := default [] outputs |}.
Proof.
  intros Hname Hflags Hacc Hout c.
  rewrite (script_run_named command code script_name l outputs arguments wait logs
             n st name Hname). cbn zeta. fold c.
  assert (heap st !! c = None) as Hc by apply not_elem_of_dom, is_fresh.
  match goal with |- context [Processor.run _ _ _ _ _ _ _ ?s] => set (st2 := s) end.
  assert (∀ x, is_Some (heap st !! x) → heap st2 !! x = heap st !! x) as Hold.
  { intros x [o Hx]. cbn [st2 heap]. apply lookup_insert_ne. congruence. }
  destruct (run_goes_through E (Some (l ++ [c])) outputs arguments wait logs (Some n) st2
              Hflags)
    as (n' & h' & ups & ins & outs & Hn & Hrun & Hins & _ & Hframe & Hnames & Hups).
  { cbn [default]. intros x [Hx | ->%list_elem_of_singleton]%elem_of_app.
    - specialize (Hacc x Hx). unfold input_accepted in *. rewrite Hold; [done |].
      by destruct (heap st !! x).
    - unfold input_accepted. cbn [st2 heap]. by rewrite lookup_insert_eq. }
  { intros x Hx. specialize (Hout x Hx). unfold is_output in *. rewrite Hold; [done |].
    by destruct (heap st !! x). }
  cbn in Hn. injection Hn as <-. cbn zeta in Hrun.
  assert (heap st2 !! c
          = Some (ObjInput (ProcessingInput.init
                    (upload_result E code
                       (posixpath.join "s3://" [default_bucket E; n; "input"; "code"]))
                    "/input/code" (Some "code")))) as Hc2
    by apply lookup_insert_eq.
  pose proof (Hframe c) as Hfc. rewrite Hc2 in Hfc.
  destruct Hfc as (i' & Hc' & Hdest & _).
  pose proof (Hnames c "code") as Hnc. rewrite Hc2, Hc' in Hnc.
  specialize (Hnc eq_refl). cbn in Hnc.
  match type of Hrun with
  | _ = (_, {| self := with_latest_job _ ?p; heap := _; trace := _ |}) =>
      destruct (process_request_args_lookup p ins outs)
        as (Hi & _ & _ & _ & _ & _ & _ & _ & _ & _ & He)
  end.
  eexists _, ups, _, ins, i'. split; [exact Hrun |].
  cbn [self heap trace st2 default]. rewrite <- !app_assoc.
  by repeat split.
Qed.

End ScriptRun.

(** ** Paths the module builds *)

Section BuiltPaths.
Variable E : Env.

Lemma rfind_after_sep (a name : string) :
  posixpath.rfind name "/" = None →
  posixpath.rfind (a +:+ "/" +:+ name) "/" = Some (String.length a).
Proof.
  intros Hname. induction a as [|d a IH].
  - change ("" +:+ "/" +:+ name) with (String "/" name).
    cbn [posixpath.rfind]. by rewrite Hname.
  - rewrite posixpath_facts.app_cons. cbn [posixpath.rfind String.length].
    by rewrite IH.
Qed.

Lemma slice_after_sep (a name : string) :
  posixpath.slice_from (S (String.length a)) (a +:+ "/" +:+ name) = name.
Proof.
  induction a as [|d a IH]; [done |].
  rewrite posixpath_facts.app_cons. cbn [posixpath.slice_from String.length].
  exact IH.
Qed.

Lemma basename_after_sep (a name : string) :
  posixpath.rfind name "/" = None →
  posixpath.basename (a +:+ "/" +:+ name) = name.
Proof.
  intros Hname. unfold posixpath.basename.
  rewrite (rfind_after_sep a name Hname). apply slice_after_sep.
Qed.

(** X16: the script can be found again in the entrypoint.  For a script name
    without ["/"], which is what a base name is, the last element of the
    entrypoint [_set_entrypoint] stores is a path under ["/input/code/"]
    whose base name is the script name. *)
Theorem script_location_basename (command : list string) (name : string) (st : State) :
  posixpath.rfind name "/" = None →
  ∃ path,
    entrypoint (self (ScriptProcessor._set_entrypoint command name st).2)
    = Some (command ++ [path])
    ∧ path = "/input/code/" +:+ name
    ∧ posixpath.basename path = name.
Proof.
  intros Hname. exists (posixpath.join "/input/" ["code"; name]).
  split; [done |].
  assert (posixpath.join "/input/" ["code"; name] = "/input/code/" +:+ name) as ->.
  { by apply posixpath_facts.join_code_script, posixpath_facts.rfind_None_startswith. }
  split; [done |].
  by apply (basename_after_sep "/input/code" name).
Qed.

Lemma join_absolute_last (a : string) (p : list string) (name : string) :
  posixpath.startswith name "/" = true →
  posixpath.join a (p ++ [name]) = name.
Proof.
  intros H. unfold posixpath.join. rewrite fold_left_app. cbn [fold_left].
  unfold posixpath.join_step, posixpath.sep. by rewrite H.
Qed.

(** X17: a name that starts with ["/"] restarts the path, as in
    [os.path.join].  An input so named whose source is not an s3 URI is
    uploaded to the name itself, bucket and job dropped, and a script name so
    written becomes the last element of the entrypoint as it is. *)
Theorem absolute_name_restarts_path (name : string) :
  posixpath.startswith name "/" = true →
  (∀ ls st job l i,
     _current_job_name (self st) = Some job →
     (∀ x, x ∈ ls → is_input (heap st) x = true) →
     l ∈ ls → heap st !! l = Some (ObjInput i) →
     ProcessingInput.input_name i = Some name →
     is_s3 E (ProcessingInput.source i) = false →
     ∃ st' i' x,
       Processor._normalize_inputs E (Some ls) st = (Return ls, st')
       ∧ heap st' !! l = Some (ObjInput i')
       ∧ ProcessingInput.source i' = upload_result E x name
       ∧ EvUpload x name ∈ trace st')
  ∧ (∀ command st,
       entrypoint (self (ScriptProcessor._set_entrypoint command name st).2)
       = Some (command ++ [name])).
Proof.
  intros Habs. split.
  - intros ls st job l i Hjob Hall Hl Hi Hn Hs3.
    pose proof (normalize_inputs_succeeds E ls st job Hall Hjob) as Hr.
    pose proof (normalize_inputs_names_kept E (Some ls) st l name) as Hkept.
    destruct (Processor._normalize_inputs E (Some ls) st) as [r st'] eqn:Hrun.
    cbn in Hr, Hkept. subst r.
    cbn [Processor._normalize_inputs] in Hrun.
    rewrite normalize_inputs_loop_enumerate in Hrun.
    destruct (enumerate_inputs_uploaded E _ _ _ _ _ _ job l i Hrun Hjob Hl Hi Hs3)
      as (i' & n' & x & Hl' & Hn' & Hsrc & Hev & _).
    rewrite Hi, Hl' in Hkept. cbn in Hkept. specialize (Hkept Hn).
    rewrite Hn' in Hkept. injection Hkept as ->.
    unfold desired_input_uri in Hsrc, Hev.
    assert (posixpath.join "s3://" [default_bucket E; job; "input"; name] = name) as Hj
      by apply (join_absolute_last "s3://" [default_bucket E; job; "input"] name Habs).
    rewrite Hj in Hsrc, Hev.
    by exists st', i', x.
  - intros command st.
    assert (posixpath.join "/input/" ["code"; name] = name) as Hj
      by apply (join_absolute_last "/input/" ["code"] name Habs).
    rewrite set_entrypoint_spec. cbn [snd self entrypoint with_entrypoint].
    by rewrite Hj.
Qed.

End BuiltPaths.

(** ** The further properties at work on the sample world *)

Ltac each_listed :=
  let x := fresh "x" in
  let Hx := fresh "Hx" in
  intros x Hx; simpl in Hx;
  repeat (apply elem_of_cons in Hx as [-> | Hx]; [reflexivity |]);
  by apply elem_of_nil in Hx.

(** With an uploader that answers with an s3 URI, the state reached by
    normalizing a local and a remote input is a fixed point. *)
Lemma normalize_inputs_twice_sample :
  Processor._normalize_inputs Sample2.E_s3 (Some [0; 2])
    (Processor._normalize_inputs Sample2.E_s3 (Some [0; 2]) Sample.st1).2
  = (Return [0; 2],
     (Processor._normalize_inputs Sample2.E_s3 (Some [0; 2]) Sample.st1).2).
Proof.
  apply (normalize_inputs_twice Sample2.E_s3 [0; 2] [0; 2] Sample.st1).
  - intros p d. reflexivity.
  - vm_compute. reflexivity.
Defined.

(** [s3://bkt/job/output] is an s3 URI: the output normalized once stays. *)
Lemma normalize_outputs_twice_sample :
  Processor._normalize_outputs Sample.E (Some [1])
    (Processor._normalize_outputs Sample.E (Some [1]) Sample.st1).2
  = (Return [1], (Processor._normalize_outputs Sample.E (Some [1]) Sample.st1).2).
Proof.
  apply (normalize_outputs_twice Sample.E [1] [1] Sample.st1 _ "job").
  - reflexivity.
  - reflexivity.
  - vm_compute. reflexivity.
Defined.

(** The two unnamed inputs of the sample store get different names. *)
Lemma generated_names_differ_sample :
  ∃ st' n1 n2,
    Processor._normalize_inputs Sample.E (Some [0; 2]) Sample.st1 = (Return [0; 2], st')
    ∧ input_name_of (heap st' !! 0) = Some n1
    ∧ input_name_of (heap st' !! 2) = Some n2
    ∧ n1 ≠ n2.
Proof.
  assert (0 ∈ [0; 2]) as H0 by (rewrite !elem_of_cons; tauto).
  assert (2 ∈ [0; 2]) as H2 by (rewrite !elem_of_cons; tauto).
  assert (0 ≠ 2) as Hne by lia.
  destruct (generated_names_differ Sample.E [0; 2] Sample.st1 "job" 0 2
              eq_refl H0 H2 Hne) as [Hin _].
  apply Hin; [each_listed | reflexivity | reflexivity].
Defined.

(** One request for the sample job, with the remote input and the output. *)
Lemma start_new_submits_once_sample :
  ∃ req,
    ProcessingJob.start_new [2] [1] Sample.st1
    = (Return {| job_name := Some "job"; job_inputs := [2]; job_outputs := [1] |},
       {| self := self Sample.st1; heap := heap Sample.st1;
          trace := [EvProcess req] |})
    ∧ req !! "job_name" = Some (PStr "job").
Proof.
  assert (∀ l, l ∈ [2] → is_input (heap Sample.st1) l = true) as Hi by each_listed.
  assert (∀ l, l ∈ [1] → is_output (heap Sample.st1) l = true) as Ho by each_listed.
  assert (∀ l, l ∈ [2] → input_accepted (heap Sample.st1) l = true) as Ha
    by each_listed.
  destruct (start_new_submits_once [2] [1] Sample.st1 Hi Ho) as [Hok _].
  destruct (Hok Ha) as (ins & outs & req & _ & _ & Hrun & Hname & _).
  exists req. split; [exact Hrun | exact Hname].
Defined.

(** A run of the sample processor on a local and a remote input. *)
Lemma run_uploads_submits_waits_sample :
  ∃ st' ups req,
    Processor.run Sample.E (Some [0; 2]) (Some [1]) (Some ["--fast"]) true true
      (Some "job") (Sample.st0 Sample.h1) = (Return tt, st')
    ∧ trace st' = ups ++ [EvProcess req] ++ [EvLogsForProcessingJob (Some "job")]
    ∧ req !! "job_name" = Some (PStr "job")
    ∧ arguments (self st') = Some ["--fast"].
Proof.
  assert (∀ l, l ∈ default [] (Some [0; 2])
               → input_accepted (heap (Sample.st0 Sample.h1)) l = true) as Ha
    by each_listed.
  assert (∀ l, l ∈ default [] (Some [1])
               → is_output (heap (Sample.st0 Sample.h1)) l = true) as Ho
    by each_listed.
  destruct (run_uploads_submits_waits Sample.E (Some [0; 2]) (Some [1])
              (Some ["--fast"]) true true (Some "job") (Sample.st0 Sample.h1)
              eq_refl Ha Ho)
    as (n & st' & ups & req & ins & Hn & Hrun & Htr & _ & Hname & _ & _ & _ & _
        & _ & Hargs & _).
  injection Hn as <-.
  exists st', ups, req. repeat split; assumption.
Defined.


(** A path that is neither a file, a directory nor an s3 URI. *)
Lemma script_run_unresolved_code_sample :
  ScriptProcessor.run Sample.E ["python3"] "missing.py" None (Some [0]) (Some [1])
    None true true (Some "job") (Sample.st0 Sample.h1)
  = (Raise ValueError, Sample.st1).
Proof.
  destruct (script_run_unresolved_code Sample.E ["python3"] "missing.py" None
              (Some [0]) (Some [1]) None true true (Some "job")
              (Sample.st0 Sample.h1) ValueError eq_refl) as (n & Hn & Hrun).
  injection Hn as <-. exact Hrun.
Defined.

(** [script.py] is uploaded and the entrypoint set before the flags are
    looked at. *)
Lemma script_run_checks_flags_late_sample :
  ∃ st',
    ScriptProcessor.run Sample.E ["python3"] "script.py" None (Some [0; 2])
      (Some [1]) None false true (Some "job") (Sample.st0 Sample.h1)
    = (Raise ValueError, st')
    ∧ trace st' = [EvUpload "script.py" "s3://bkt/job/input/code"]
    ∧ entrypoint (self st') = Some ["python3"; "/input/code/script.py"].
Proof.
  destruct (script_run_checks_flags_late Sample.E ["python3"] "script.py" None
              [0; 2] (Some [1]) None (Some "job") (Sample.st0 Sample.h1)
              "script.py" eq_refl)
    as (n & st' & Hrun & Htr & Hep & Hn & _).
  exists st'. split; [exact Hrun |].
  assert (n = "job") as ->.
  { apply (f_equal snd) in Hrun. cbn [snd] in Hrun. rewrite <- Hrun in Hn.
    vm_compute in Hn. congruence. }
  split; [exact Htr | exact Hep].
Defined.

(** [script.py] run on the sample inputs: the code input is the last one. *)
Lemma script_run_submits_code_last_sample :
  ∃ st' i',
    ScriptProcessor.run Sample.E ["python3"] "script.py" None (Some [0; 2])
      (Some [1]) None true false (Some "job") (Sample.st0 Sample.h1)
    = (Return tt, st')
    ∧ heap st' !! 4 = Some (ObjInput i')
    ∧ ProcessingInput.input_name i' = Some "code"
    ∧ ProcessingInput.destination i' = "/input/code"
    ∧ latest_job (self st')
      = Some {| job_name := Some "job"; job_inputs := [0; 2; 4];
                job_outputs := [1] |}.
Proof.
  assert (∀ x, x ∈ [0; 2] → input_accepted (heap (Sample.st0 Sample.h1)) x = true)
    as Ha by each_listed.
  assert (∀ x, x ∈ default [] (Some [1])
               → is_output (heap (Sample.st0 Sample.h1)) x = true) as Ho
    by each_listed.
  destruct (script_run_submits_code_last Sample.E ["python3"] "script.py" None
              [0; 2] (Some [1]) None true false "job" (Sample.st0 Sample.h1)
              "script.py" eq_refl eq_refl Ha Ho)
    as (st' & ups & req & ins & i' & Hrun & _ & _ & _ & _ & _ & _ & Hc & Hname
        & Hdest & Hlast).
  exists st', i'. repeat split; assumption.
Defined.

(** The base name [script.py] is found again in the entrypoint. *)
Lemma script_location_basename_sample :
  ∃ path,
    entrypoint (self (ScriptProcessor._set_entrypoint ["python3"] "script.py"
                        (Sample.st0 Sample.h1)).2)
    = Some ["python3"; path]
    ∧ posixpath.basename path = "script.py".
Proof.
  destruct (script_location_basename ["python3"] "script.py"
              (Sample.st0 Sample.h1) eq_refl) as (path & Hep & _ & Hbase).
  exists path. split; [exact Hep | exact Hbase].
Defined.

(** A script name written as an absolute path is the entrypoint's last
    element as it is: [/input/code/] is dropped. *)
Lemma absolute_name_restarts_path_sample :
  entrypoint (self (ScriptProcessor._set_entrypoint ["python3"] "/opt/run.py"
                      (Sample.st0 Sample.h1)).2)
  = Some ["python3"; "/opt/run.py"].
Proof.
  destruct (absolute_name_restarts_path Sample.E "/opt/run.py" eq_refl)
    as [_ Hep].
  exact (Hep ["python3"] (Sample.st0 Sample.h1)).
Defined.
